(** * Recycling route optimizer: a shallow embedding of [RouteOptimizer]

    The development follows [src/application/recycling_route_optimizer.py]
    and [src/application/config.py].

    - Python exceptions are explicit outcomes ([KeyError], [IndexError], ...).
    - Tour entries are Python integers; numpy indexing keeps its
      wrap-around for negative indices.
    - Floating-point quantities (distances, weights, prices, coordinates)
      range over an abstract number type [D] that carries only the order
      facts IEEE comparison satisfies on every value, NaN included; no law
      of the arithmetic is assumed.
    - [calculate_distance] (Haversine, through [math.sin], [math.cos],
      [math.sqrt], [math.atan2]) is a parameter of the planner, which is
      modelled over any implementation of it, raising ones included; the
      function itself is modelled over binary64 floats in [Haversine].
    - The weekly table is the list of its rows, a missing [Day] included;
      the depot table carries its index labels, which
      [select_optimal_depot] reads. *)

From Stdlib Require PrimFloat.
From Stdlib Require Import String QArith.
From Stdlib Require Import List ZArith Lia Bool Permutation FinFun Sorted.
Import ListNotations.
Open Scope Z_scope.

Set Implicit Arguments.

(** ** Outcomes of a Python call *)

Inductive exn : Type :=
| KeyError
| IndexError
| ValueError
| ZeroDivisionError.

(** [Diverge] is a [while] loop of the model running out of fuel;
    [nearest_neighbor_tsp_terminates] shows that it is never reached. *)
Inductive result (A : Type) : Type :=
| Ok (a : A)
| Raise (e : exn)
| Diverge.

Arguments Ok {A} a.
Arguments Raise {A} e.
Arguments Diverge {A}.

Definition bind {A B : Type} (c : result A) (k : A -> result B) : result B :=
  match c with
  | Ok a => k a
  | Raise e => Raise e
  | Diverge => Diverge
  end.

Notation "x <- c ;; k" := (bind c (fun x => k))
  (at level 61, c at next level, right associativity).

(** ** Numbers

    [dltb] is Python's [<] on floats: irreflexive and transitive on every
    value, NaN included.  [dlt_inf x] is [x < float('inf')].  Nothing is
    assumed of the arithmetic. *)

Class Num (D : Type) : Type := {
  dzero : D;
  dadd : D -> D -> D;
  dmul : D -> D -> D;
  ddiv : D -> D -> D;
  dltb : D -> D -> bool;
  dlt_inf : D -> bool;
  dltb_irrefl : forall a, dltb a a = false;
  dltb_trans : forall a b c, dltb a b = true -> dltb b c = true -> dltb a c = true
}.

(** [a] is not above [b]: [b < a] is false. *)
Definition dle {D : Type} `{Num D} (a b : D) : Prop := dltb b a = false.

(** The values of [P] are comparable: none of them is NaN, so that [<] is
    a strict weak order on them. *)
Definition comparable {D : Type} `{Num D} (P : D -> Prop) : Prop :=
  forall a b c, P a -> P b -> P c ->
    dltb a b = true -> dltb a c = true \/ dltb c b = true.

(** ** Python and numpy sequences *)

(** [range(a, b)] over naturals. *)
Definition range (a b : nat) : list nat := seq a (b - a).

(** [range(n)] as the integers a Python [int] index ranges over. *)
Definition zrange (n : nat) : list Z := map Z.of_nat (seq 0 n).

(** [l[i]] for a numpy array or a Python list: a negative index counts from
    the end, anything outside [-len, len) raises [IndexError]. *)
Definition np_index {A : Type} (l : list A) (i : Z) : result A :=
  let n := Z.of_nat (length l) in
  let k := if i <? 0 then n + i else i in
  if (0 <=? k) && (k <? n) then
    match nth_error l (Z.to_nat k) with
    | Some a => Ok a
    | None => Raise IndexError
    end
  else Raise IndexError.

(** [l[a:b]] for [0 <= a] and [0 <= b]. *)
Definition slice {A : Type} (l : list A) (a b : nat) : list A :=
  skipn a (firstn b l).

(** [s.remove(x)] on a set kept in iteration order: [KeyError] when absent. *)
Fixpoint set_remove (x : Z) (s : list Z) : result (list Z) :=
  match s with
  | [] => Raise KeyError
  | y :: s' =>
      if Z.eqb x y then Ok s'
      else s'' <- set_remove x s' ;; Ok (y :: s'')
  end.

Section Routing.

Context {D : Type} `{Num D}.

(** A distance matrix is the sequence of its rows; [len(distance_matrix)]
    is the number of rows. *)
Definition matrix : Type := list (list D).

(** [distance_matrix[a][b]] *)
Definition entry (distance_matrix : matrix) (a b : Z) : result D :=
  row <- np_index distance_matrix a ;;
  np_index row b.

(** The loop of [calculate_route_distance], started from a running total:
    one matrix access per consecutive pair of the route. *)
Fixpoint route_distance_from (total : D) (route : list Z)
    (distance_matrix : matrix) : result D :=
  match route with
  | a :: rest =>
      match rest with
      | b :: _ =>
          d <- entry distance_matrix a b ;;
          route_distance_from (dadd total d) rest distance_matrix
      | [] => Ok total
      end
  | [] => Ok total
  end.

Definition calculate_route_distance (route : list Z)
    (distance_matrix : matrix) : result D :=
  route_distance_from dzero route distance_matrix.

(** [route[:i] + route[i:j+1][::-1] + route[j+1:]] *)
Definition two_opt_move (route : list Z) (i j : nat) : list Z :=
  firstn i route ++ rev (slice route i (j + 1)) ++ skipn (j + 1) route.

(** The inner [for j] loop: the first [j] whose reversal is strictly
    shorter than [best_distance], with its route and distance. *)
Fixpoint scan_j (route : list Z) (distance_matrix : matrix)
    (best_distance : D) (i : nat) (js : list nat)
    : result (option (list Z * D)) :=
  match js with
  | [] => Ok None
  | j :: js' =>
      let new_route := two_opt_move route i j in
      new_distance <- calculate_route_distance new_route distance_matrix ;;
      if dltb new_distance best_distance
      then Ok (Some (new_route, new_distance))
      else scan_j route distance_matrix best_distance i js'
  end.

(** The outer [for i] loop; it stops at the first improvement. *)
Fixpoint scan_i (route : list Z) (distance_matrix : matrix)
    (best_distance : D) (idxs : list nat) : result (option (list Z * D)) :=
  match idxs with
  | [] => Ok None
  | i :: idxs' =>
      found <- scan_j route distance_matrix best_distance i
                 (range (i + 1) (length route - 1)) ;;
      match found with
      | Some move => Ok (Some move)
      | None => scan_i route distance_matrix best_distance idxs'
      end
  end.

(** [for iteration in range(max_iterations)]: [route], [best_route] and
    [best_distance] are the loop's three variables. *)
Fixpoint two_opt_loop (iterations : nat) (route best_route : list Z)
    (best_distance : D) (distance_matrix : matrix) : result (list Z) :=
  match iterations with
  | O => Ok best_route
  | S iterations' =>
      found <- scan_i route distance_matrix best_distance
                 (range 1 (length route - 2)) ;;
      match found with
      | Some (new_route, new_distance) =>
          two_opt_loop iterations' new_route new_route new_distance
            distance_matrix
      | None => Ok best_route
      end
  end.

(** [range(max_iterations)] is empty for a budget below one. *)
Definition two_opt_improvement (route : list Z) (distance_matrix : matrix)
    (max_iterations : Z) : result (list Z) :=
  let best_route := route in
  best_distance <- calculate_route_distance best_route distance_matrix ;;
  two_opt_loop (Z.to_nat max_iterations) route best_route best_distance
    distance_matrix.

(** [min(unvisited, key=...)] after its first element: a later element
    replaces the incumbent only when its key is strictly smaller. *)
Fixpoint min_from (key : Z -> result D) (best : Z) (best_key : D)
    (rest : list Z) : result Z :=
  match rest with
  | [] => Ok best
  | x :: rest' =>
      k <- key x ;;
      if dltb k best_key then min_from key x k rest'
      else min_from key best best_key rest'
  end.

Definition py_min (key : Z -> result D) (items : list Z) : result Z :=
  match items with
  | [] => Raise ValueError
  | x :: rest => k <- key x ;; min_from key x k rest
  end.

(** The [while unvisited] loop.  [unvisited] is held in the order CPython
    iterates a set of small integers, which is ascending. *)
Fixpoint nn_loop (fuel : nat) (distance_matrix : matrix) (current : Z)
    (unvisited route : list Z) : result (list Z) :=
  match unvisited with
  | [] => Ok route
  | _ :: _ =>
      match fuel with
      | O => Diverge
      | S fuel' =>
          nearest <- py_min (fun x => entry distance_matrix current x)
                       unvisited ;;
          unvisited' <- set_remove nearest unvisited ;;
          nn_loop fuel' distance_matrix nearest unvisited' (route ++ [nearest])
      end
  end.

Definition nearest_neighbor_tsp (distance_matrix : matrix) (start_idx : Z)
    : result (list Z) :=
  let n := length distance_matrix in
  let unvisited := zrange n in
  let current := start_idx in
  let route := [current] in
  unvisited <- set_remove current unvisited ;;
  route <- nn_loop (length unvisited) distance_matrix current unvisited route ;;
  Ok (route ++ [start_idx]).

End Routing.

Arguments matrix : clear implicits.

(** ** Tabular inputs: the columns the optimizer reads *)

(** A cell of the [Day] column: a string, or missing ([None], the NaN that
    [pd.read_csv] puts in an empty cell). *)
Definition day_value : Type := option string.

(** [a == b] on two cells: a missing value equals nothing, itself
    included. *)
Definition day_eqb (a b : day_value) : bool :=
  match a, b with
  | Some x, Some y => String.eqb x y
  | _, _ => false
  end.

(** The grouping equality of [unique] and [isin]: as [day_eqb], but the
    missing value matches the missing value. *)
Definition same_day (a b : day_value) : bool :=
  match a, b with
  | Some x, Some y => String.eqb x y
  | None, None => true
  | _, _ => false
  end.

(** The cell holds a day. *)
Definition dated (a : day_value) : bool :=
  match a with
  | Some _ => true
  | None => false
  end.

Record CollectionRequest (D : Type) : Type := {
  Day : day_value;
  Location : string;
  Material : string;
  Estimated_Weight_kg : D;
  Latitude : D;
  Longitude : D
}.

Record DepotRow (D : Type) : Type := {
  Depot : string;
  depot_Latitude : D;
  depot_Longitude : D
}.

Record PriceRow (D : Type) : Type := {
  price_Material : string;
  Price_per_kg : D
}.

(** The dictionary stored in [results[day]]. *)
Module DayResult.
Record t (D : Type) : Type := mk {
  route : list Z;
  locations : list (D * D);
  distance : D;
  weight : D;
  revenue : D;
  depot : DepotRow D;
  collections : list (CollectionRequest D);
  efficiency : D
}.
End DayResult.

(** [float('inf')] next to the finite values. *)
Inductive extended (D : Type) : Type :=
| Finite (d : D)
| Infinity.

Arguments Finite {D} d.
Arguments Infinity {D}.

Fixpoint mapM {A B : Type} (f : A -> result B) (l : list A) : result (list B) :=
  match l with
  | [] => Ok []
  | a :: l' => b <- f a ;; bs <- mapM f l' ;; Ok (b :: bs)
  end.

(** [enumerate(l)] *)
Definition enumerate {A : Type} (l : list A) : list (nat * A) :=
  combine (seq 0 (length l)) l.

(** A data frame whose index matters: its rows in positional order, each
    with its index label (an integer).  [df.iterrows()] yields these
    pairs. *)
Definition frame (A : Type) : Type := list (Z * A).

(** The rows of a frame, by position. *)
Definition rows {A : Type} (df : frame A) : list A := map snd df.

(** The frame [pd.read_csv] builds: the default [RangeIndex], where the
    label of a row is its position. *)
Definition default_index {A : Type} (l : list A) : frame A :=
  combine (zrange (length l)) l.

(** [df.iloc[i]] on the rows of a frame: by position, a negative [i]
    counting from the end, [IndexError] outside. *)
Definition iloc {A : Type} (df : list A) (i : Z) : result A :=
  np_index df i.

(** [Series.unique()]: the values in order of first appearance, a missing
    value once. *)
Fixpoint unique (l : list day_value) : list day_value :=
  match l with
  | [] => []
  | x :: l' => x :: filter (fun y => negb (same_day x y)) (unique l')
  end.

(** The signature default of [two_opt_improvement]. *)
Definition default_max_iterations : Z := 1000.

Section Planner.

Context {D : Type} `{Num D}.

(** [calculate_distance] is floating-point trigonometry; the planner is
    modelled over any implementation of it, one that may raise included. *)
Variable calculate_distance : D -> D -> D -> D -> result D.

(** The cell the double loop of [create_distance_matrix] fills at [i], [j]. *)
Definition cell (i j : nat) (li lj : D * D) : result D :=
  if Nat.eqb i j then Ok dzero
  else calculate_distance (fst li) (snd li) (fst lj) (snd lj).

(** [matrix[i][j]] for [i != j]; the diagonal keeps the zero of [np.zeros]. *)
Definition create_distance_matrix (locations : list (D * D))
    : result (matrix D) :=
  mapM (fun '(i, li) =>
    mapM (fun '(j, lj) =>
      if Nat.eqb i j then Ok dzero
      else calculate_distance (fst li) (snd li) (fst lj) (snd lj))
      (enumerate locations))
    (enumerate locations).

(** The inner loop of [select_optimal_depot]: [total_dist += dist]. *)
Fixpoint total_dist_from (total_dist : D) (depot : DepotRow D)
    (day_data : list (CollectionRequest D)) : result D :=
  match day_data with
  | [] => Ok total_dist
  | collection :: day_data' =>
      dist <- calculate_distance (depot_Latitude depot) (depot_Longitude depot)
                (Latitude collection) (Longitude collection) ;;
      total_dist_from (dadd total_dist dist) depot day_data'
  end.

(** [total_dist < min_total_distance] *)
Definition lt_extended (total_dist : D) (min_total_distance : extended D)
    : bool :=
  match min_total_distance with
  | Finite m => dltb total_dist m
  | Infinity => dlt_inf total_dist
  end.

(** The loop over [depots.iterrows()]: [idx] is the index label of the
    row. *)
Fixpoint depot_loop (day_data : list (CollectionRequest D))
    (iterrows : list (Z * DepotRow D)) (best_depot_idx : Z)
    (min_total_distance : extended D) : result Z :=
  match iterrows with
  | [] => Ok best_depot_idx
  | (idx, depot) :: iterrows' =>
      total_dist <- total_dist_from dzero depot day_data ;;
      if lt_extended total_dist min_total_distance
      then depot_loop day_data iterrows' idx (Finite total_dist)
      else depot_loop day_data iterrows' best_depot_idx min_total_distance
  end.

(** The label the loop ends with is handed to [depots.iloc], which reads
    it as a position. *)
Definition select_optimal_depot (day_data : list (CollectionRequest D))
    (depots : frame (DepotRow D)) : result (Z * DepotRow D) :=
  best_depot_idx <- depot_loop day_data depots 0 Infinity ;;
  depot_info <- iloc (rows depots) best_depot_idx ;;
  Ok (best_depot_idx, depot_info).

(** [day_data.merge(prices, on='Material', how='left')], keeping the two
    columns the revenue reads: every left row once per matching price row,
    and once with a missing price (NaN, here [None]) when none matches. *)
Definition merge_prices (day_data : list (CollectionRequest D))
    (prices : list (PriceRow D)) : list (D * option D) :=
  flat_map (fun row =>
    match filter (fun p => String.eqb (Material row) (price_Material p)) prices with
    | [] => [(Estimated_Weight_kg row, None)]
    | matches =>
        map (fun p => (Estimated_Weight_kg row, Some (Price_per_kg p))) matches
    end) day_data.

(** [Series.sum()] with its default [skipna=True]: a missing value enters
    the sum as zero. *)
Definition nansum (values : list (option D)) : D :=
  fold_left (fun total v =>
    dadd total (match v with Some x => x | None => dzero end)) values dzero.

(** [merged['Estimated_Weight_kg'] * merged['Price_per_kg']]: a product
    with a missing price is missing. *)
Definition revenue_terms (day_data : list (CollectionRequest D))
    (prices : list (PriceRow D)) : list (option D) :=
  map (fun '(w, p) => option_map (dmul w) p) (merge_prices day_data prices).

(** [(merged['Estimated_Weight_kg'] * merged['Price_per_kg']).sum()] *)
Definition total_revenue_of (day_data : list (CollectionRequest D))
    (prices : list (PriceRow D)) : D :=
  nansum (revenue_terms day_data prices).

(** [a / b]; a zero divisor is reported as [ZeroDivisionError]. *)
Definition py_div (a b : D) : result D :=
  if negb (dltb b dzero) && negb (dltb dzero b)
  then Raise ZeroDivisionError
  else Ok (ddiv a b).

(** [total_revenue / total_distance if total_distance > 0 else 0] *)
Definition efficiency_of (total_revenue total_distance : D) : result D :=
  if dltb dzero total_distance then py_div total_revenue total_distance
  else Ok dzero.

(** The body of the [for day] loop of [optimize_weekly_routes]: [None] is
    the [continue] of an empty day. *)
Definition plan_day (weekly_data : list (CollectionRequest D))
    (depots : frame (DepotRow D)) (prices : list (PriceRow D)) (day : day_value)
    : result (option (DayResult.t D)) :=
  let day_data := filter (fun row => day_eqb (Day row) day) weekly_data in
  if Nat.eqb (length day_data) 0 then Ok None
  else
    selected <- select_optimal_depot day_data depots ;;
    let depot_info := snd selected in
    let locations :=
      (depot_Latitude depot_info, depot_Longitude depot_info)
      :: map (fun row => (Latitude row, Longitude row)) day_data in
    dist_matrix <- create_distance_matrix locations ;;
    initial_route <- nearest_neighbor_tsp dist_matrix 0 ;;
    optimized_route <- two_opt_improvement initial_route dist_matrix
                         default_max_iterations ;;
    total_distance <- calculate_route_distance optimized_route dist_matrix ;;
    let total_weight :=
      nansum (map (fun row => Some (Estimated_Weight_kg row)) day_data) in
    let total_revenue := total_revenue_of day_data prices in
    efficiency <- efficiency_of total_revenue total_distance ;;
    Ok (Some (DayResult.mk optimized_route locations total_distance
                total_weight total_revenue depot_info day_data efficiency)).

(** [results], a dictionary keyed by day, in insertion order. *)
Fixpoint days_loop (weekly_data : list (CollectionRequest D))
    (depots : frame (DepotRow D)) (prices : list (PriceRow D))
    (days : list day_value) (results : list (day_value * DayResult.t D))
    : result (list (day_value * DayResult.t D)) :=
  match days with
  | [] => Ok results
  | day :: days' =>
      planned <- plan_day weekly_data depots prices day ;;
      match planned with
      | Some r =>
          days_loop weekly_data depots prices days' (results ++ [(day, r)])
      | None => days_loop weekly_data depots prices days' results
      end
  end.

Definition optimize_weekly_routes (weekly_data : list (CollectionRequest D))
    (depots : frame (DepotRow D)) (prices : list (PriceRow D))
    : result (list (day_value * DayResult.t D)) :=
  days_loop weekly_data depots prices (unique (map (@Day D) weekly_data)) [].

(** The part of [main] between the sidebar controls and the display:
    [None] is the early return on an empty selection.  The tables come from
    [pd.read_csv]; [depot_locations] is taken with whatever index it has. *)
Definition main (selected_days : list day_value) (optimization_level : string)
    (weekly_routes : list (CollectionRequest D))
    (depot_locations : frame (DepotRow D))
    (material_prices : list (PriceRow D))
    : option (result (list (day_value * DayResult.t D))) :=
  let filtered_data :=
    filter (fun row => existsb (same_day (Day row)) selected_days)
      weekly_routes in
  if Nat.eqb (length filtered_data) 0 then None
  else Some (optimize_weekly_routes filtered_data depot_locations
               material_prices).

End Planner.

(** ** [calculate_distance] over binary64 floats

    The arithmetic of the function is IEEE arithmetic on doubles.
    [math.radians] is one multiplication and [math.sqrt] the IEEE square
    root behind a domain check.  [math.sin], [math.cos], [math.atan2] and
    [**] go to the C library; they are taken as the caller sees them, a
    float or an exception. *)

Module Haversine.

Import PrimFloat.
Local Open Scope float_scope.

(** [math.pi] *)
Definition pi : float := 0x1.921fb54442d18p+1.

(** [math.radians(x)]: [x * (pi / 180)] *)
Definition math_radians (x : float) : float := x * (pi / 180).

(** [math.sqrt(x)]: "math domain error" below zero. *)
Definition math_sqrt (x : float) : result float :=
  if x <? 0 then Raise ValueError else Ok (sqrt x).

Section Libm.

Variable math_sin : float -> result float.
Variable math_cos : float -> result float.
Variable math_atan2 : float -> float -> result float.
Variable float_pow : float -> float -> result float.

Definition calculate_distance (lat1 lon1 lat2 lon2 : float) : result float :=
  let R := 6371 in
  let lat1_rad := math_radians lat1 in
  let lon1_rad := math_radians lon1 in
  let lat2_rad := math_radians lat2 in
  let lon2_rad := math_radians lon2 in
  let dlat := lat2_rad - lat1_rad in
  let dlon := lon2_rad - lon1_rad in
  sin_dlat <- math_sin (dlat / 2) ;;
  sin_dlat_2 <- float_pow sin_dlat 2 ;;
  cos_lat1 <- math_cos lat1_rad ;;
  cos_lat2 <- math_cos lat2_rad ;;
  sin_dlon <- math_sin (dlon / 2) ;;
  sin_dlon_2 <- float_pow sin_dlon 2 ;;
  let a := sin_dlat_2 + cos_lat1 * cos_lat2 * sin_dlon_2 in
  sqrt_a <- math_sqrt a ;;
  sqrt_1_a <- math_sqrt (1 - a) ;;
  atan <- math_atan2 sqrt_a sqrt_1_a ;;
  let c := 2 * atan in
  Ok (R * c).

End Libm.

(** The C library at the arguments that the call for (8, 0) and
    (-8, 180) reaches, as a table: sin(-0.13962634015954636),
    sin(pi/2), cos(0.13962634015954636) and the two squares.  Outside
    the table the stand-ins raise. *)
Definition table_sin (x : float) : result float :=
  if x =? -0x1.1df46a2529d39p-3 then Ok (-0x1.1d06c968d9e19p-3)
  else if x =? 0x1.921fb54442d18p+0 then Ok 1
  else Raise ValueError.

Definition table_cos (x : float) : result float :=
  if abs x =? 0x1.1df46a2529d39p-3 then Ok 0x1.fb046a930947ap-1
  else Raise ValueError.

Definition table_pow (x y : float) : result float :=
  if (x =? -0x1.1d06c968d9e19p-3) && (y =? 2) then Ok 0x1.3d581ca184804p-6
  else if (x =? 1) && (y =? 2) then Ok 1
  else Raise ValueError.

Definition table_atan2 (y x : float) : result float := Raise ValueError.

End Haversine.

(** ** [config.py] *)

Module config.

Definition DEFAULT_MAX_ITERATIONS : Z := 1000.

Record level : Type := { iterations : Z; algorithm : string }.

Definition OPTIMIZATION_LEVELS : list (string * level) :=
  [ ("Basic (Nearest Neighbor)"%string,
      {| iterations := 0; algorithm := "nearest_neighbor" |});
    ("Advanced (2-Opt)"%string,
      {| iterations := 1000; algorithm := "two_opt" |});
    ("Premium (Multi-iteration)"%string,
      {| iterations := 5000; algorithm := "two_opt_premium" |}) ].

(** [OPTIMIZATION_LEVELS[name]["iterations"]] *)
Definition iterations_of (name : string) : result Z :=
  match find (fun kv => String.eqb name (fst kv)) OPTIMIZATION_LEVELS with
  | Some kv => Ok (iterations (snd kv))
  | None => Raise KeyError
  end.

End config.

(** ** What [create_route_map] and [main] read off a day result *)

(** [x in l] *)
Definition py_in (x : Z) (l : list Z) : bool := existsb (Z.eqb x) l.

(** [l.index(x)]: the first position of [x], [ValueError] when absent. *)
Fixpoint py_index_of (x : Z) (l : list Z) : result nat :=
  match l with
  | [] => Raise ValueError
  | y :: l' =>
      if Z.eqb y x then Ok 0%nat
      else k <- py_index_of x l' ;; Ok (S k)
  end.

(** [route.index(i+1) if i+1 in route else 'N/A'], the stop number shown in
    the popup of the [i]-th collection; [None] is ['N/A']. *)
Definition stop_number (route : list Z) (i : nat) : result (option nat) :=
  if py_in (Z.of_nat i + 1) route
  then k <- py_index_of (Z.of_nat i + 1) route ;; Ok (Some k)
  else Ok None.

(** [[route_data['locations'][i] for i in route]] *)
Definition route_coords {D : Type} (locations : list (D * D))
    (route : list Z) : result (list (D * D)) :=
  mapM (np_index locations) route.

(** [data['route'][1:-1]] *)
Definition route_order (route : list Z) : list Z :=
  slice route 1 (length route - 1).

(** The lines [main] writes under "Collection Points": for each
    [i, stop_idx] of [enumerate(route_order)] with [stop_idx > 0], the
    number [i + 1] and the row [collections.iloc[stop_idx - 1]]. *)
Fixpoint collection_lines {D : Type} (collections : list (CollectionRequest D))
    (numbered : list (nat * Z)) : result (list (nat * CollectionRequest D)) :=
  match numbered with
  | [] => Ok []
  | (i, stop_idx) :: numbered' =>
      if 0 <? stop_idx then
        collection <- iloc collections (stop_idx - 1) ;;
        lines <- collection_lines collections numbered' ;;
        Ok (((i + 1)%nat, collection) :: lines)
      else collection_lines collections numbered'
  end.

Definition collection_points {D : Type} (r : DayResult.t D)
    : result (list (nat * CollectionRequest D)) :=
  collection_lines (DayResult.collections r)
    (enumerate (route_order (DayResult.route r))).

(** ** Rational numbers as an instance of [Num], for concrete runs *)

Definition Qltb (a b : Q) : bool := negb (Qle_bool b a).

#[export] Instance Q_Num : Num Q.
Proof.
  assert (Hlt : forall a b : Q, Qltb a b = true <-> (a < b)%Q).
  { intros a b. unfold Qltb.
    rewrite negb_true_iff, <- not_true_iff_false, Qle_bool_iff.
    split; [apply Qnot_le_lt | apply Qlt_not_le]. }
  refine {| dzero := 0%Q; dadd := Qplus; dmul := Qmult; ddiv := Qdiv;
            dltb := Qltb; dlt_inf := fun _ => true |}.
  - intro a. apply not_true_iff_false. rewrite Hlt. apply Qlt_irrefl.
  - intros a b c. rewrite !Hlt. apply Qlt_trans.
Defined.

(** A stand-in for [calculate_distance] in concrete runs: the taxicab
    distance on the coordinate grid. *)
Definition Qabs_diff (a b : Q) : Q := if Qltb a b then (b - a)%Q else (a - b)%Q.

Definition taxicab (lat1 lon1 lat2 lon2 : Q) : result Q :=
  Ok (Qabs_diff lat1 lat2 + Qabs_diff lon1 lon2)%Q.

Definition zq (n : Z) : Q := inject_Z n.

(** One day of collections, two depots and a price table without "Foil". *)
Definition sample_row (location material : string) (w lat lon : Z)
    : CollectionRequest Q :=
  {| Day := Some "Mon"%string; Location := location; Material := material;
     Estimated_Weight_kg := zq w; Latitude := zq lat; Longitude := zq lon |}.

Definition foil_row : CollectionRequest Q := sample_row "C" "Foil" 10 2 (-3).

Definition sample_week : list (CollectionRequest Q) :=
  [ sample_row "A" "Paper" 10 1 0; sample_row "B" "Glass" 10 (-1) 1; foil_row ].

(** The same week with a second day of one collection. *)
Definition sample_two_days : list (CollectionRequest Q) :=
  sample_week
  ++ [ {| Day := Some "Tue"%string; Location := "D"; Material := "Paper";
          Estimated_Weight_kg := zq 4; Latitude := zq 3; Longitude := zq 3 |} ].

(** A row whose [Day] cell is empty, and the two-day week with it. *)
Definition undated_row : CollectionRequest Q :=
  {| Day := None; Location := "E"; Material := "Glass";
     Estimated_Weight_kg := zq 7; Latitude := zq 50; Longitude := zq 50 |}.

Definition sample_undated : list (CollectionRequest Q) :=
  undated_row :: sample_two_days.

(** A [calculate_distance] that raises beyond a span of 40, as the real
    one does on some far-apart pairs. *)
Definition partial_taxicab (lat1 lon1 lat2 lon2 : Q) : result Q :=
  let d := (Qabs_diff lat1 lat2 + Qabs_diff lon1 lon2)%Q in
  if Qltb (zq 40) d then Raise ValueError else Ok d.

Definition north : DepotRow Q :=
  {| Depot := "North"; depot_Latitude := zq 10; depot_Longitude := zq 10 |}.

Definition central : DepotRow Q :=
  {| Depot := "Central"; depot_Latitude := zq 0; depot_Longitude := zq 0 |}.

Definition sample_depots : frame (DepotRow Q) :=
  default_index [north; central].

(** The same two depots under the index labels 1 and 0: what is left of
    a larger table after a selection or a sort of its rows. *)
Definition relabelled_depots : frame (DepotRow Q) :=
  [(1, north); (0, central)].

Definition sample_prices : list (PriceRow Q) :=
  [ {| price_Material := "Paper"; Price_per_kg := 2 # 1 |};
    {| price_Material := "Glass"; Price_per_kg := 1 # 2 |} ].

Definition foil_at_zero : PriceRow Q :=
  {| price_Material := "Foil"; Price_per_kg := 0 # 1 |}.

(** A four-stop matrix on which the nearest-neighbour tour can be improved. *)
Definition sample_matrix : matrix Q :=
  map (map zq)
    [ [0; 1; 2; 3; 9];
      [1; 0; 3; 1; 9];
      [2; 3; 0; 1; 1];
      [3; 1; 1; 0; 5];
      [9; 9; 1; 5; 0] ].

(** ** Vocabulary of the statements *)

(** An [n] by [n] array. *)
Definition square {D : Type} (n : nat) (m : matrix D) : Prop :=
  length m = n /\ Forall (fun row => length row = n) m.

(** The indices numpy accepts on an axis of length [n]. *)
Definition valid_index (n : nat) (i : Z) : Prop :=
  - Z.of_nat n <= i < Z.of_nat n.

(** A closed tour over [n] locations with the depot at index 0: it starts
    and ends at 0, has [n + 1] entries, and holds every other index once. *)
Definition valid_tour (n : nat) (tour : list Z) : Prop :=
  hd_error tour = Some 0
  /\ nth_error tour n = Some 0
  /\ length tour = S n
  /\ forall k, 1 <= k < Z.of_nat n -> count_occ Z.eq_dec tour k = 1%nat.

(** No row of the price table carries this material. *)
Definition unpriced {D : Type} (prices : list (PriceRow D))
    (material : string) : Prop :=
  forall p, In p prices -> price_Material p <> material.

(** Same entries, same first entry, same last entry. *)
Definition same_ends (r' r : list Z) : Prop :=
  Permutation r' r /\ hd_error r' = hd_error r /\ last r' 0 = last r 0.

(** The positions the nested scan visits. *)
Definition admissible (route : list Z) (i j : nat) : Prop :=
  (1 <= i /\ i <= j /\ j + 1 < length route)%nat.

Section Vocabulary.

Context {D : Type} `{Num D}.

(** [d'] was reached from [d] by accepted moves: equal, or strictly below. *)
Definition reached (d' d : D) : Prop := d' = d \/ dltb d' d = true.

Variable calculate_distance : D -> D -> D -> D -> result D.

(** The coordinates of a collection point and of a depot. *)
Definition point_of (row : CollectionRequest D) : D * D :=
  (Latitude row, Longitude row).

Definition site_of (depot : DepotRow D) : D * D :=
  (depot_Latitude depot, depot_Longitude depot).

(** [calculate_distance] returns a value on the pair [a], [b]. *)
Definition computes (a b : D * D) : Prop :=
  exists d, calculate_distance (fst a) (snd a) (fst b) (snd b) = Ok d.

(** The distances from a depot to each of the day's collection points, in
    row order. *)
Definition depot_distances (day_data : list (CollectionRequest D))
    (depot : DepotRow D) : result (list D) :=
  mapM (fun row =>
    calculate_distance (fst (site_of depot)) (snd (site_of depot))
      (fst (point_of row)) (snd (point_of row))) day_data.

(** The summed distance from a depot to the day's collection points: the
    distances added up from zero, in row order. *)
Definition depot_total (day_data : list (CollectionRequest D))
    (depot : DepotRow D) : result D :=
  distances <- depot_distances day_data depot ;;
  Ok (fold_left dadd distances dzero).

(** The sums of the depots of a table. *)
Definition depot_sum (day_data : list (CollectionRequest D))
    (depots : list (DepotRow D)) (s : D) : Prop :=
  exists depot, In depot depots /\ depot_total day_data depot = Ok s.

(** [depots[idx]] has the least summed distance among [depots], and is the
    first to attain it. *)
Definition first_minimal (day_data : list (CollectionRequest D))
    (depots : list (DepotRow D)) (idx : nat) (s : D) : Prop :=
  (exists depot, nth_error depots idx = Some depot
                 /\ depot_total day_data depot = Ok s)
  /\ forall k depot' s',
       nth_error depots k = Some depot' ->
       depot_total day_data depot' = Ok s' ->
       dle s s' /\ ((k < idx)%nat -> dltb s s' = true).

(** What the loop variables say about the depots seen so far. *)
Definition depot_loop_inv (day_data : list (CollectionRequest D))
    (seen : list (DepotRow D)) (best_depot_idx : nat)
    (min_total_distance : extended D) : Prop :=
  match min_total_distance with
  | Infinity => seen = []
  | Finite s => first_minimal day_data seen best_depot_idx s
  end.

End Vocabulary.

(** The pairs of positions the nested scan of [two_opt_improvement] tries. *)
Definition scanned (route : list Z) (i j : nat) : Prop :=
  (1 <= i /\ i < j /\ j + 1 < length route)%nat.

Section ScanVocabulary.

Context {D : Type} `{Num D}.

(** The move at [i], [j] is tried and not accepted against [best]. *)
Definition rejected (m : matrix D) (route : list Z) (best : D) (i j : nat)
    : Prop :=
  exists d', calculate_route_distance (two_opt_move route i j) m = Ok d'
             /\ dltb d' best = false.

(** No reversal the scan tries on [route] is strictly shorter than [d]. *)
Definition locally_optimal (m : matrix D) (route : list Z) (d : D) : Prop :=
  forall i j, scanned route i j ->
    exists d', calculate_route_distance (two_opt_move route i j) m = Ok d'
               /\ dltb d' d = false.

(** [x] has key [kx], no item has a smaller key, and every item of lower
    index has a strictly larger one. *)
Definition least_key (key : Z -> result D) (x : Z) (kx : D)
    (items : list Z) : Prop :=
  key x = Ok kx
  /\ forall y, In y items ->
       exists ky, key y = Ok ky
         /\ dle kx ky /\ (y < x -> dltb kx ky = true).

(** The values read from the matrix. *)
Definition cell_of (m : matrix D) (d : D) : Prop :=
  exists a b, entry m a b = Ok d.

(** From [current], [x] is a nearest of [candidates], and the one of lowest
    index among the nearest. *)
Definition nearest_among (m : matrix D) (current x : Z)
    (candidates : list Z) : Prop :=
  exists dx, least_key (fun y => entry m current y) x dx candidates.

End ScanVocabulary.

Ltac solve_square := split; [reflexivity | repeat constructor].

Ltac solve_indices := repeat constructor; unfold valid_index; simpl; lia.

(** * Properties *)

(** ** Concrete runs *)

Example np_index_wraps : np_index [10; 20; 30] (-1) = Ok 30.
Proof. reflexivity. Qed.

Example np_index_out_of_range : np_index [10; 20; 30] 3 = Raise IndexError.
Proof. reflexivity. Qed.

Example nearest_neighbor_sample :
  nearest_neighbor_tsp sample_matrix 0 = Ok [0; 1; 3; 2; 4; 0].
Proof. vm_compute. reflexivity. Qed.

Example two_opt_sample :
  two_opt_improvement [0; 1; 3; 2; 4; 0] sample_matrix 1000
  = Ok [0; 1; 3; 4; 2; 0].
Proof. vm_compute. reflexivity. Qed.

Example route_distance_sample :
  calculate_route_distance [0; 1; 3; 2; 4; 0] sample_matrix = Ok (zq 13)
  /\ calculate_route_distance [0; 1; 3; 4; 2; 0] sample_matrix = Ok (zq 10).
Proof. split; vm_compute; reflexivity. Qed.

Example route_outside_matrix :
  two_opt_improvement [0; 7; 0] sample_matrix 1000 = Raise IndexError.
Proof. vm_compute. reflexivity. Qed.

Example sample_day_metrics :
  exists r,
    optimize_weekly_routes taxicab sample_week sample_depots sample_prices
    = Ok [(Some "Mon"%string, r)]
    /\ DayResult.route r = [0; 2; 1; 3; 0]
    /\ DayResult.distance r = zq 14
    /\ DayResult.weight r = zq 30
    /\ (DayResult.revenue r == 25 # 1)%Q
    /\ Depot (DayResult.depot r) = "Central"%string.
Proof.
  eexists. split; [vm_compute; reflexivity | ].
  repeat split; vm_compute; reflexivity.
Qed.

(** ** The outcome monad *)

Lemma bind_Ok {A B : Type} (c : result A) (k : A -> result B) (b : B) :
  bind c k = Ok b -> exists a, c = Ok a /\ k a = Ok b.
Proof.
  destruct c as [a | e | ]; simpl; intro Hk; try discriminate.
  exists a; split; [reflexivity | exact Hk].
Qed.

(** Rational numbers are comparable throughout. *)
Lemma Q_comparable (P : Q -> Prop) : comparable P.
Proof.
  assert (Hlt : forall a b : Q, Qltb a b = true <-> (a < b)%Q).
  { intros a b. unfold Qltb.
    rewrite negb_true_iff, <- not_true_iff_false, Qle_bool_iff.
    split; [apply Qnot_le_lt | apply Qlt_not_le]. }
  intros a b c _ _ _. change (@dltb Q Q_Num) with Qltb. rewrite !Hlt.
  intro Hab. destruct (Qlt_le_dec a c) as [Hac | Hca]; [now left | right].
  eapply Qle_lt_trans; eassumption.
Qed.

Ltac inv_bind H :=
  let a := fresh "v" in
  let Ha := fresh "Hv" in
  apply bind_Ok in H; destruct H as (a & Ha & H).

(** ** Indexing *)

Lemma np_index_ok {A : Type} (l : list A) (i : Z) :
  valid_index (length l) i -> exists a, np_index l i = Ok a /\ In a l.
Proof.
  unfold valid_index, np_index. intros Hi.
  set (n := Z.of_nat (length l)) in *.
  set (k := if i <? 0 then n + i else i).
  assert (Hk : 0 <= k < n).
  { subst k. destruct (Z.ltb_spec i 0); lia. }
  replace ((0 <=? k) && (k <? n)) with true
    by (symmetry; apply andb_true_iff; split;
        [apply Z.leb_le | apply Z.ltb_lt]; lia).
  destruct (nth_error l (Z.to_nat k)) as [a | ] eqn:Hnth.
  - exists a; split; [reflexivity | eapply nth_error_In; eassumption].
  - apply nth_error_None in Hnth. subst n. lia.
Qed.

Lemma np_index_inv {A : Type} (l : list A) (i : Z) (a : A) :
  np_index l i = Ok a -> valid_index (length l) i /\ In a l.
Proof.
  unfold valid_index, np_index.
  set (n := Z.of_nat (length l)).
  set (k := if i <? 0 then n + i else i).
  destruct ((0 <=? k) && (k <? n)) eqn:Hb; [ | discriminate].
  apply andb_true_iff in Hb. destruct Hb as [H0 Hn].
  apply Z.leb_le in H0. apply Z.ltb_lt in Hn.
  destruct (nth_error l (Z.to_nat k)) as [a' | ] eqn:Hnth; [ | discriminate].
  intro Heq; injection Heq as ->. split.
  - subst k. destruct (Z.ltb_spec i 0); lia.
  - eapply nth_error_In; eassumption.
Qed.

Section RoutingFacts.

Context {D : Type} `{Num D}.

Lemma entry_ok (n : nat) (m : matrix D) (a b : Z) :
  square n m -> valid_index n a -> valid_index n b ->
  exists d, entry m a b = Ok d.
Proof.
  intros [Hlen Hrows] Ha Hb. unfold entry.
  destruct (@np_index_ok _ m a) as (row & -> & Hin); [now rewrite Hlen | ].
  simpl. rewrite Forall_forall in Hrows. specialize (Hrows row Hin).
  destruct (@np_index_ok _ row b) as (d & -> & _); [now rewrite Hrows | ].
  now exists d.
Qed.

Lemma route_distance_from_ok (n : nat) (m : matrix D) (route : list Z) :
  square n m -> Forall (valid_index n) route ->
  forall total, exists d, route_distance_from total route m = Ok d.
Proof.
  intros Hsq. induction route as [ | a rest IH]; intros Hall total.
  - now exists total.
  - destruct rest as [ | b rest'].
    + now exists total.
    + inversion Hall as [ | ? ? Ha Hrest]; subst.
      pose proof Hrest as Hrest'.
      inversion Hrest' as [ | ? ? Hb _]; subst.
      destruct (entry_ok Hsq Ha Hb) as (d & Hd).
      cbn [route_distance_from]. rewrite Hd. cbn [bind].
      apply IH. exact Hrest.
Qed.

Lemma calculate_route_distance_ok (n : nat) (m : matrix D) (route : list Z) :
  square n m -> Forall (valid_index n) route ->
  exists d, calculate_route_distance route m = Ok d.
Proof.
  intros. unfold calculate_route_distance.
  eapply route_distance_from_ok; eassumption.
Qed.

End RoutingFacts.

(** ** Segment reversal *)

Lemma in_range (a b j : nat) : In j (range a b) <-> (a <= j < b)%nat.
Proof. unfold range. rewrite in_seq. lia. Qed.

Lemma last_app_nonempty {A : Type} (x y : list A) (d : A) :
  y <> [] -> last (x ++ y) d = last y d.
Proof.
  intro Hy. induction x as [ | a x IH]; [reflexivity | ].
  simpl. destruct (x ++ y) eqn:Happ; [ | exact IH].
  apply app_eq_nil in Happ. now destruct Happ.
Qed.

Lemma skipn_nonempty {A : Type} (k : nat) (l : list A) :
  (k < length l)%nat -> skipn k l <> [].
Proof.
  intros Hk Hnil. apply (f_equal (@length A)) in Hnil.
  rewrite length_skipn in Hnil. simpl in Hnil. lia.
Qed.

Lemma last_skipn {A : Type} (k : nat) (l : list A) (d : A) :
  (k < length l)%nat -> last (skipn k l) d = last l d.
Proof.
  intro Hk. rewrite <- (firstn_skipn k l) at 2.
  symmetry. apply last_app_nonempty. now apply skipn_nonempty.
Qed.

Lemma two_opt_move_split (route : list Z) (i j : nat) :
  (i <= j + 1)%nat ->
  two_opt_move route i j
  = firstn i (firstn (j + 1) route)
    ++ rev (skipn i (firstn (j + 1) route)) ++ skipn (j + 1) route.
Proof.
  intro Hij. unfold two_opt_move, slice.
  rewrite firstn_firstn. now replace (Nat.min i (j + 1)) with i by lia.
Qed.

Lemma two_opt_move_perm (route : list Z) (i j : nat) :
  (i <= j + 1)%nat -> Permutation (two_opt_move route i j) route.
Proof.
  intro Hij. rewrite two_opt_move_split by exact Hij.
  rewrite <- (firstn_skipn (j + 1) route) at 4.
  rewrite <- (firstn_skipn i (firstn (j + 1) route)) at 3.
  rewrite <- app_assoc.
  apply Permutation_app_head, Permutation_app_tail.
  symmetry. apply Permutation_rev.
Qed.

Lemma two_opt_move_same_ends (route : list Z) (i j : nat) :
  admissible route i j -> same_ends (two_opt_move route i j) route.
Proof.
  intros (Hi & Hij & Hj). split; [ | split].
  - apply two_opt_move_perm. lia.
  - unfold two_opt_move. destruct route as [ | a route]; [simpl in Hj; lia | ].
    destruct i as [ | i]; [lia | reflexivity].
  - unfold two_opt_move. rewrite app_assoc.
    rewrite last_app_nonempty by (apply skipn_nonempty; lia).
    apply last_skipn. lia.
Qed.

Lemma same_ends_refl (r : list Z) : same_ends r r.
Proof. repeat split; reflexivity. Qed.

Lemma same_ends_trans (r1 r2 r3 : list Z) :
  same_ends r1 r2 -> same_ends r2 r3 -> same_ends r1 r3.
Proof.
  intros (Hp & Hh & Hl) (Hp' & Hh' & Hl'). repeat split.
  - now transitivity r2.
  - congruence.
  - congruence.
Qed.

Section TwoOptFacts.

Context {D : Type} `{Num D}.

Lemma reached_dle (d' d : D) : reached d' d -> dle d' d.
Proof.
  unfold reached, dle. intros [-> | Hlt]; [apply dltb_irrefl | ].
  destruct (dltb d d') eqn:Hgt; [ | reflexivity].
  pose proof (dltb_trans _ _ _ Hlt Hgt) as Hdd.
  rewrite dltb_irrefl in Hdd. discriminate.
Qed.

Lemma scan_j_Some (route : list Z) (m : matrix D) (best : D) (i : nat)
    (js : list nat) (r' : list Z) (d' : D) :
  scan_j route m best i js = Ok (Some (r', d')) ->
  exists j, In j js /\ r' = two_opt_move route i j
            /\ calculate_route_distance r' m = Ok d' /\ dltb d' best = true.
Proof.
  induction js as [ | j js IH]; simpl; intro Hs; [discriminate | ].
  inv_bind Hs.
  destruct (dltb v best) eqn:Hlt.
  - injection Hs as <- <-. exists j. auto.
  - destruct (IH Hs) as (j' & Hin & Hrest). exists j'. auto.
Qed.

Lemma scan_i_Some (route : list Z) (m : matrix D) (best : D)
    (idxs : list nat) (r' : list Z) (d' : D) :
  scan_i route m best idxs = Ok (Some (r', d')) ->
  exists i j, In i idxs /\ In j (range (i + 1) (length route - 1))
              /\ r' = two_opt_move route i j
              /\ calculate_route_distance r' m = Ok d' /\ dltb d' best = true.
Proof.
  induction idxs as [ | i idxs IH]; simpl; intro Hs; [discriminate | ].
  inv_bind Hs. destruct v as [[r0 d0] | ].
  - injection Hs as <- <-. apply scan_j_Some in Hv.
    destruct Hv as (j & Hj & Hrest). exists i, j. auto.
  - destruct (IH Hs) as (i' & j & Hi' & Hrest). exists i', j. auto.
Qed.

(** One pass of the nested scan, when it finds a move. *)
Lemma scan_step (route : list Z) (m : matrix D) (best : D)
    (r' : list Z) (d' : D) :
  scan_i route m best (range 1 (length route - 2)) = Ok (Some (r', d')) ->
  same_ends r' route
  /\ calculate_route_distance r' m = Ok d' /\ dltb d' best = true.
Proof.
  intro Hs. apply scan_i_Some in Hs.
  destruct Hs as (i & j & Hi & Hj & -> & Hd & Hlt).
  apply in_range in Hi. apply in_range in Hj.
  split; [ | auto]. apply two_opt_move_same_ends. unfold admissible. lia.
Qed.

Lemma two_opt_loop_spec (m : matrix D) (iterations : nat) :
  forall (route : list Z) (best_distance : D) (r' : list Z),
  calculate_route_distance route m = Ok best_distance ->
  two_opt_loop iterations route route best_distance m = Ok r' ->
  same_ends r' route
  /\ exists d', calculate_route_distance r' m = Ok d'
                /\ reached d' best_distance.
Proof.
  induction iterations as [ | k IH]; intros route bd r' Hbd Hloop.
  - simpl in Hloop. injection Hloop as <-.
    split; [apply same_ends_refl | ]. exists bd. split; [exact Hbd | now left].
  - simpl in Hloop. inv_bind Hloop. destruct v as [[nr nd] | ].
    + apply scan_step in Hv. destruct Hv as (Hends & Hnd & Hlt).
      destruct (IH nr nd r' Hnd Hloop) as (Hends' & d' & Hd' & Hreach).
      split; [eapply same_ends_trans; eassumption | ].
      exists d'. split; [exact Hd' | right].
      destruct Hreach as [-> | Hlt']; [exact Hlt | ].
      eapply dltb_trans; eassumption.
    + injection Hloop as <-.
      split; [apply same_ends_refl | ]. exists bd. split; [exact Hbd | now left].
Qed.

Lemma scan_j_total (n : nat) (route : list Z) (m : matrix D) (best : D)
    (i : nat) (js : list nat) :
  square n m -> Forall (valid_index n) route ->
  (forall j, In j js -> (i <= j + 1)%nat) ->
  exists found, scan_j route m best i js = Ok found.
Proof.
  intros Hsq Hvalid. induction js as [ | j js IH]; intro Hjs; simpl.
  - now exists None.
  - assert (Hmove : Forall (valid_index n) (two_opt_move route i j)).
    { eapply Permutation_Forall; [ | exact Hvalid].
      symmetry. apply two_opt_move_perm. apply Hjs. now left. }
    destruct (calculate_route_distance_ok Hsq Hmove) as (d & ->). simpl.
    destruct (dltb d best); [eexists; reflexivity | ].
    apply IH. intros j' Hj'. apply Hjs. now right.
Qed.

Lemma scan_i_total (n : nat) (route : list Z) (m : matrix D) (best : D)
    (idxs : list nat) :
  square n m -> Forall (valid_index n) route ->
  exists found, scan_i route m best idxs = Ok found.
Proof.
  intros Hsq Hvalid. induction idxs as [ | i idxs IH]; simpl.
  - now exists None.
  - destruct (@scan_j_total n route m best i
                (range (i + 1) (length route - 1)) Hsq Hvalid) as (found & ->).
    { intros j Hj. apply in_range in Hj. lia. }
    simpl. destruct found as [move | ]; [eexists; reflexivity | exact IH].
Qed.

Lemma two_opt_loop_total (n : nat) (m : matrix D) (iterations : nat) :
  square n m ->
  forall (route : list Z) (best_distance : D),
  Forall (valid_index n) route ->
  exists r', two_opt_loop iterations route route best_distance m = Ok r'.
Proof.
  intro Hsq. induction iterations as [ | k IH]; intros route bd Hvalid; simpl.
  - now exists route.
  - destruct (@scan_i_total n route m bd (range 1 (length route - 2))
                Hsq Hvalid) as (found & Hfound).
    rewrite Hfound. simpl. destruct found as [[nr nd] | ].
    + apply IH. apply scan_step in Hfound. destruct Hfound as ((Hp & _) & _).
      eapply Permutation_Forall; [ | exact Hvalid]. now symmetry.
    + now exists route.
Qed.

(** What [two_opt_improvement] returns, whenever it returns. *)
Lemma two_opt_improvement_spec (route : list Z) (m : matrix D)
    (max_iterations : Z) (r' : list Z) :
  two_opt_improvement route m max_iterations = Ok r' ->
  same_ends r' route
  /\ exists d d', calculate_route_distance route m = Ok d
                  /\ calculate_route_distance r' m = Ok d'
                  /\ dle d' d.
Proof.
  unfold two_opt_improvement. intro Hrun. inv_bind Hrun.
  destruct (two_opt_loop_spec _ _ _ Hv Hrun) as (Hends & d' & Hd' & Hreach).
  split; [exact Hends | ]. exists v, d'. repeat split; try assumption.
  now apply reached_dle.
Qed.

(** It returns on every tour whose entries index the square matrix. *)
Lemma two_opt_improvement_total (n : nat) (route : list Z) (m : matrix D)
    (max_iterations : Z) :
  square n m -> Forall (valid_index n) route ->
  exists r', two_opt_improvement route m max_iterations = Ok r'.
Proof.
  intros Hsq Hvalid. unfold two_opt_improvement.
  destruct (calculate_route_distance_ok Hsq Hvalid) as (d & ->). simpl.
  now apply two_opt_loop_total with (n := n).
Qed.

(** Without a positive budget the loop body never runs. *)
Lemma two_opt_improvement_no_budget (route : list Z) (m : matrix D)
    (max_iterations : Z) :
  max_iterations <= 0 ->
  two_opt_improvement route m max_iterations
  = (_ <- calculate_route_distance route m ;; Ok route).
Proof.
  intro Hb. unfold two_opt_improvement.
  replace (Z.to_nat max_iterations) with 0%nat by lia. reflexivity.
Qed.

End TwoOptFacts.

(** ** Sets and [min] *)

Lemma set_remove_perm (x : Z) (s s' : list Z) :
  set_remove x s = Ok s' -> Permutation s (x :: s').
Proof.
  revert s'. induction s as [ | y s IH]; simpl; intros s' Hr; [discriminate | ].
  destruct (Z.eqb_spec x y) as [-> | Hneq].
  - injection Hr as <-. reflexivity.
  - inv_bind Hr. injection Hr as <-.
    rewrite (IH v Hv). apply perm_swap.
Qed.

Lemma set_remove_in (x : Z) (s : list Z) :
  In x s -> exists s', set_remove x s = Ok s'.
Proof.
  induction s as [ | y s IH]; simpl; intro Hin; [contradiction | ].
  destruct (Z.eqb_spec x y) as [-> | Hneq]; [eexists; reflexivity | ].
  destruct Hin as [-> | Hin]; [contradiction | ].
  destruct (IH Hin) as (s' & ->). eexists; reflexivity.
Qed.

Lemma set_remove_not_diverge (x : Z) (s : list Z) : set_remove x s <> Diverge.
Proof.
  induction s as [ | y s IH]; simpl; [discriminate | ].
  destruct (Z.eqb x y); [discriminate | ].
  destruct (set_remove x s); simpl; congruence.
Qed.

Lemma zrange_in (n : nat) (k : Z) : In k (zrange n) <-> 0 <= k < Z.of_nat n.
Proof.
  unfold zrange. rewrite in_map_iff. split.
  - intros (i & <- & Hi). apply in_seq in Hi. lia.
  - intro Hk. exists (Z.to_nat k). split; [lia | apply in_seq; lia].
Qed.

Lemma zrange_NoDup (n : nat) : NoDup (zrange n).
Proof.
  unfold zrange. apply Injective_map_NoDup; [ | apply seq_NoDup].
  intros a b. apply Nat2Z.inj.
Qed.

Lemma zrange_length (n : nat) : length (zrange n) = n.
Proof. unfold zrange. now rewrite length_map, length_seq. Qed.

Section NearestNeighborFacts.

Context {D : Type} `{Num D}.

Lemma min_from_in (key : Z -> result D) (rest : list Z) :
  forall (best : Z) (best_key : D) (x : Z),
  min_from key best best_key rest = Ok x -> x = best \/ In x rest.
Proof.
  induction rest as [ | y rest IH]; simpl; intros best bk x Hm.
  - injection Hm as <-. now left.
  - inv_bind Hm. destruct (dltb v bk).
    + destruct (IH _ _ _ Hm) as [-> | Hin]; auto.
    + destruct (IH _ _ _ Hm) as [-> | Hin]; auto.
Qed.

Lemma py_min_in (key : Z -> result D) (items : list Z) (x : Z) :
  py_min key items = Ok x -> In x items.
Proof.
  destruct items as [ | y rest]; simpl; intro Hm; [discriminate | ].
  inv_bind Hm. destruct (min_from_in _ _ _ _ Hm) as [-> | Hin]; auto.
Qed.

Lemma min_from_total (key : Z -> result D) (rest : list Z) :
  (forall x, In x rest -> exists k, key x = Ok k) ->
  forall (best : Z) (best_key : D),
  exists x, min_from key best best_key rest = Ok x.
Proof.
  induction rest as [ | y rest IH]; simpl; intros Hkey best bk.
  - now exists best.
  - destruct (Hkey y) as (k & ->); [now left | ]. simpl.
    destruct (dltb k bk); apply IH; auto.
Qed.

Lemma py_min_total (key : Z -> result D) (items : list Z) :
  items <> [] -> (forall x, In x items -> exists k, key x = Ok k) ->
  exists x, py_min key items = Ok x.
Proof.
  destruct items as [ | y rest]; [congruence | ]. intros _ Hkey. simpl.
  destruct (Hkey y) as (k & ->); [now left | ]. simpl.
  apply min_from_total. intros x Hx. apply Hkey. now right.
Qed.

Lemma nn_loop_spec (m : matrix D) (fuel : nat) :
  forall (current : Z) (unvisited route r : list Z),
  nn_loop fuel m current unvisited route = Ok r ->
  exists p, r = route ++ p /\ Permutation p unvisited.
Proof.
  induction fuel as [ | fuel IH]; intros current unvisited route r Hrun.
  - destruct unvisited; simpl in Hrun; [ | discriminate].
    injection Hrun as <-. exists []. now rewrite app_nil_r.
  - destruct unvisited as [ | u unvisited].
    + simpl in Hrun. injection Hrun as <-. exists []. now rewrite app_nil_r.
    + cbn [nn_loop] in Hrun. inv_bind Hrun. inv_bind Hrun.
      rename v into nearest, v0 into unvisited'.
      destruct (IH _ _ _ _ Hrun) as (p & -> & Hp).
      exists (nearest :: p). split; [now rewrite <- app_assoc | ].
      apply set_remove_perm in Hv0. rewrite Hv0. now apply perm_skip.
Qed.

Lemma nn_loop_total (n : nat) (m : matrix D) (fuel : nat) :
  square n m ->
  forall (current : Z) (unvisited route : list Z),
  valid_index n current -> Forall (valid_index n) unvisited ->
  (length unvisited <= fuel)%nat ->
  exists r, nn_loop fuel m current unvisited route = Ok r.
Proof.
  intro Hsq. induction fuel as [ | fuel IH];
    intros current unvisited route Hcur Hunv Hfuel.
  - destruct unvisited; [now exists route | simpl in Hfuel; lia].
  - destruct unvisited as [ | u unvisited]; [now exists route | ].
    cbn [nn_loop].
    destruct (@py_min_total (fun x => entry m current x) (u :: unvisited))
      as (nearest & Hmin); [discriminate | | ].
    { intros x Hx. rewrite Forall_forall in Hunv.
      eapply entry_ok; eauto. }
    rewrite Hmin. cbn [bind].
    pose proof (py_min_in _ _ Hmin) as Hin.
    destruct (set_remove_in _ _ Hin) as (unvisited' & Hrem).
    rewrite Hrem. cbn [bind].
    pose proof (set_remove_perm _ _ Hrem) as Hperm.
    apply IH.
    + rewrite Forall_forall in Hunv. now apply Hunv.
    + assert (Hall : Forall (valid_index n) (nearest :: unvisited'))
        by (eapply Permutation_Forall; eassumption).
      now inversion Hall.
    + apply Permutation_length in Hperm. simpl in Hperm, Hfuel. lia.
Qed.

(** The tour built from a depot inside the matrix: the depot, the other
    indices in some order, the depot again. *)
Lemma nearest_neighbor_tsp_shape (n : nat) (m : matrix D) (start_idx : Z) :
  square n m -> 0 <= start_idx < Z.of_nat n ->
  exists p, nearest_neighbor_tsp m start_idx = Ok (start_idx :: p ++ [start_idx])
            /\ Permutation (start_idx :: p) (zrange n).
Proof.
  intros Hsq Hstart. unfold nearest_neighbor_tsp.
  destruct Hsq as [Hlen Hrows]. rewrite Hlen.
  assert (Hin : In start_idx (zrange n)) by now apply zrange_in.
  destruct (set_remove_in _ _ Hin) as (unvisited & Hrem).
  rewrite Hrem. cbn [bind].
  pose proof (set_remove_perm _ _ Hrem) as Hperm.
  assert (Hvalid : Forall (valid_index n) unvisited).
  { apply Forall_forall. intros x Hx.
    assert (Hx' : In x (zrange n))
      by (eapply Permutation_in; [symmetry; exact Hperm | now right]).
    apply zrange_in in Hx'. unfold valid_index. lia. }
  destruct (@nn_loop_total n m (length unvisited) (conj Hlen Hrows)
              start_idx unvisited [start_idx]) as (r & Hloop);
    [unfold valid_index; lia | exact Hvalid | lia | ].
  rewrite Hloop. cbn [bind].
  destruct (nn_loop_spec _ _ _ _ _ Hloop) as (p & -> & Hp).
  exists p. split; [reflexivity | ].
  symmetry. rewrite Hperm. apply perm_skip. now symmetry.
Qed.

End NearestNeighborFacts.

(** ** The fuel of [nn_loop] is enough *)

Lemma np_index_not_diverge {A : Type} (l : list A) (i : Z) :
  np_index l i <> Diverge.
Proof.
  unfold np_index.
  destruct (_ && _); [ | discriminate].
  destruct (nth_error _ _); discriminate.
Qed.

Section Termination.

Context {D : Type} `{Num D}.

Lemma entry_not_diverge (m : matrix D) (a b : Z) : entry m a b <> Diverge.
Proof.
  unfold entry. destruct (np_index m a) as [row | e | ] eqn:Hrow; simpl.
  - apply np_index_not_diverge.
  - discriminate.
  - now apply np_index_not_diverge in Hrow.
Qed.

Lemma min_from_not_diverge (key : Z -> result D) (rest : list Z) :
  (forall x, key x <> Diverge) ->
  forall best best_key, min_from key best best_key rest <> Diverge.
Proof.
  intro Hkey. induction rest as [ | x rest IH]; simpl; intros best bk;
    [discriminate | ].
  destruct (key x) as [k | e | ] eqn:Hk; simpl.
  - destruct (dltb k bk); apply IH.
  - discriminate.
  - now apply Hkey in Hk.
Qed.

Lemma py_min_not_diverge (key : Z -> result D) (items : list Z) :
  (forall x, key x <> Diverge) -> py_min key items <> Diverge.
Proof.
  intro Hkey. destruct items as [ | x rest]; simpl; [discriminate | ].
  destruct (key x) as [k | e | ] eqn:Hk; simpl.
  - now apply min_from_not_diverge.
  - discriminate.
  - now apply Hkey in Hk.
Qed.

Lemma nn_loop_not_diverge (m : matrix D) (fuel : nat) :
  forall (current : Z) (unvisited route : list Z),
  (length unvisited <= fuel)%nat ->
  nn_loop fuel m current unvisited route <> Diverge.
Proof.
  induction fuel as [ | fuel IH]; intros current unvisited route Hfuel.
  - destruct unvisited; [discriminate | simpl in Hfuel; lia].
  - destruct unvisited as [ | u unvisited]; [discriminate | ].
    cbn [nn_loop].
    destruct (py_min (fun x => entry m current x) (u :: unvisited))
      as [nearest | e | ] eqn:Hmin; cbn [bind].
    + destruct (set_remove nearest (u :: unvisited))
        as [unvisited' | e | ] eqn:Hrem; cbn [bind].
      * apply IH. apply set_remove_perm, Permutation_length in Hrem.
        simpl in Hrem, Hfuel. lia.
      * discriminate.
      * now apply set_remove_not_diverge in Hrem.
    + discriminate.
    + apply py_min_not_diverge in Hmin; [contradiction | ].
      intro x. apply entry_not_diverge.
Qed.

(** The [while unvisited] loop ends on every input. *)
Lemma nearest_neighbor_tsp_terminates (m : matrix D) (start_idx : Z) :
  nearest_neighbor_tsp m start_idx <> Diverge.
Proof.
  unfold nearest_neighbor_tsp.
  destruct (set_remove start_idx (zrange (length m)))
    as [unvisited | e | ] eqn:Hrem; cbn [bind].
  - destruct (nn_loop (length unvisited) m start_idx unvisited [start_idx])
      as [route | e | ] eqn:Hloop; cbn [bind]; try discriminate.
    now apply nn_loop_not_diverge in Hloop.
  - discriminate.
  - now apply set_remove_not_diverge in Hrem.
Qed.

End Termination.

(** ** Closed tours *)

Lemma nth_error_last {A : Type} (l : list A) (n : nat) (d : A) :
  length l = S n -> nth_error l n = Some (last l d).
Proof.
  intro Hlen. destruct (@exists_last _ l) as (l' & a & ->).
  { intros ->. discriminate. }
  rewrite length_app in Hlen. simpl in Hlen.
  rewrite last_last, nth_error_app2 by lia.
  now replace (n - length l')%nat with 0%nat by lia.
Qed.

Lemma valid_tour_of_shape (n : nat) (p : list Z) :
  Permutation (0 :: p) (zrange n) -> valid_tour n (0 :: p ++ [0]).
Proof.
  intro Hperm.
  assert (Hlen : length (0 :: p) = n)
    by (rewrite (Permutation_length Hperm); apply zrange_length).
  unfold valid_tour. repeat split.
  - change (0 :: p ++ [0]) with ((0 :: p) ++ [0]).
    rewrite nth_error_app2 by lia.
    now replace (n - length (0%Z :: p))%nat with 0%nat by lia.
  - simpl in *. rewrite length_app. simpl. lia.
  - intros k Hk. change (0 :: p ++ [0]) with ((0 :: p) ++ [0]).
    rewrite count_occ_app.
    rewrite (proj1 (Permutation_count_occ Z.eq_dec _ _) Hperm k).
    rewrite (proj1 (NoDup_count_occ' Z.eq_dec _) (zrange_NoDup n))
      by (apply zrange_in; lia).
    cbn [count_occ]. destruct (Z.eq_dec 0 k); [lia | reflexivity].
Qed.

Lemma valid_tour_same_ends (n : nat) (t t' : list Z) :
  valid_tour n t -> same_ends t' t -> valid_tour n t'.
Proof.
  intros (Hhd & Hlast & Hlen & Hcount) (Hperm & Hhd' & Hlast').
  assert (Hlen' : length t' = S n)
    by now rewrite (Permutation_length Hperm).
  unfold valid_tour. repeat split.
  - congruence.
  - rewrite (nth_error_last t' 0 Hlen'), Hlast'.
    now rewrite <- (nth_error_last t 0 Hlen).
  - exact Hlen'.
  - intros k Hk.
    rewrite (proj1 (Permutation_count_occ Z.eq_dec _ _) Hperm k). now apply Hcount.
Qed.

(** Every entry of a closed tour over [n >= 1] locations indexes the matrix. *)
Lemma valid_tour_indices (n : nat) (t : list Z) :
  (1 <= n)%nat -> valid_tour n t -> Forall (valid_index n) t.
Proof.
  intros Hn (Hhd & Hlast & Hlen & Hcount).
  destruct t as [ | a rest]; [discriminate | ].
  simpl in Hhd. injection Hhd as ->.
  destruct (@exists_last _ rest) as (mid & b & ->).
  { intros ->. simpl in Hlen. lia. }
  simpl in Hlen. rewrite length_app in Hlen. simpl in Hlen.
  change (0 :: mid ++ [b]) with ((0 :: mid) ++ [b]) in Hlast.
  rewrite nth_error_app2 in Hlast by (simpl; lia).
  replace (n - length (0%Z :: mid))%nat with 0%nat in Hlast by (simpl; lia).
  simpl in Hlast. injection Hlast as ->.
  set (others := map Z.of_nat (seq 1 (n - 1))).
  assert (Hothers : forall k, In k others <-> 1 <= k < Z.of_nat n).
  { intro k. unfold others. rewrite in_map_iff. split.
    - intros (i & <- & Hi). apply in_seq in Hi. lia.
    - intro Hk. exists (Z.to_nat k). split; [lia | apply in_seq; lia]. }
  assert (Hincl : incl mid others).
  { apply NoDup_length_incl.
    - unfold others. apply Injective_map_NoDup; [ | apply seq_NoDup].
      intros x y. apply Nat2Z.inj.
    - unfold others. rewrite length_map, length_seq. lia.
    - intros k Hk. apply Hothers in Hk. specialize (Hcount k Hk).
      assert (Hin : In k (0 :: mid ++ [0]))
        by (apply (count_occ_In Z.eq_dec); lia).
      destruct Hin as [H0 | Hin]; [lia | ].
      apply in_app_or in Hin. destruct Hin as [Hin | [H0 | []]]; [exact Hin | lia]. }
  assert (Hbound : forall x, In x (0 :: mid ++ [0]) -> valid_index n x).
  { intros x [<- | Hx]; [unfold valid_index; lia | ].
    apply in_app_or in Hx. destruct Hx as [Hx | [<- | []]].
    - apply Hincl, Hothers in Hx. unfold valid_index. lia.
    - unfold valid_index. lia. }
  apply Forall_forall. exact Hbound.
Qed.

(** * The claims on tours *)

(** C1: on every tour whose entries index the square distance matrix, and
    for every iteration budget, [two_opt_improvement] returns a tour whose
    [calculate_route_distance] over the same matrix is less than or equal
    to that of the input tour. *)
Theorem two_opt_improvement_never_worse {D : Type} `{Num D}
    (n : nat) (m : matrix D) (route : list Z) (max_iterations : Z) :
  square n m -> Forall (valid_index n) route ->
  exists r' d d',
    two_opt_improvement route m max_iterations = Ok r'
    /\ calculate_route_distance route m = Ok d
    /\ calculate_route_distance r' m = Ok d'
    /\ dle d' d.
Proof.
  intros Hsq Hvalid.
  destruct (two_opt_improvement_total max_iterations Hsq Hvalid) as (r' & Hrun).
  destruct (two_opt_improvement_spec _ _ _ Hrun) as (_ & d & d' & Hd & Hd' & Hle).
  exists r', d, d'. auto.
Qed.

Lemma two_opt_improvement_never_worse_witness :
  exists r' d d',
    two_opt_improvement [0; 1; 3; 2; 4; 0] sample_matrix 1000 = Ok r'
    /\ calculate_route_distance [0; 1; 3; 2; 4; 0] sample_matrix = Ok d
    /\ calculate_route_distance r' sample_matrix = Ok d'
    /\ dle d' d.
Proof.
  apply (@two_opt_improvement_never_worse Q _ 5%nat).
  - solve_square.
  - solve_indices.
Defined.

(** C2: for an [n] by [n] matrix with [n >= 1] and start index 0,
    [nearest_neighbor_tsp] returns a tour that starts and ends at 0, has
    [n + 1] entries and holds every non-depot index exactly once; and on
    every such tour [two_opt_improvement] returns a tour with the same
    property, a rearrangement of the same entries with the first and the
    last entry unchanged. *)
Theorem tours_stay_valid {D : Type} `{Num D} (n : nat) (m : matrix D)
    (tour : list Z) (max_iterations : Z) :
  (1 <= n)%nat -> square n m -> valid_tour n tour ->
  (exists initial, nearest_neighbor_tsp m 0 = Ok initial
                   /\ valid_tour n initial)
  /\ exists tour',
       two_opt_improvement tour m max_iterations = Ok tour'
       /\ valid_tour n tour' /\ same_ends tour' tour.
Proof.
  intros Hn Hsq Htour. split.
  - destruct (@nearest_neighbor_tsp_shape D _ n m 0 Hsq) as (p & Hrun & Hperm);
      [lia | ].
    eexists. split; [exact Hrun | now apply valid_tour_of_shape].
  - pose proof (valid_tour_indices Hn Htour) as Hvalid.
    destruct (two_opt_improvement_total max_iterations Hsq Hvalid)
      as (tour' & Hrun).
    destruct (two_opt_improvement_spec _ _ _ Hrun) as (Hends & _).
    exists tour'. split; [exact Hrun | split; [ | exact Hends]].
    eapply valid_tour_same_ends; eassumption.
Qed.

Lemma tours_stay_valid_witness :
  (exists initial, nearest_neighbor_tsp sample_matrix 0 = Ok initial
                   /\ valid_tour 5 initial)
  /\ exists tour',
       two_opt_improvement [0; 1; 3; 2; 4; 0] sample_matrix 1000 = Ok tour'
       /\ valid_tour 5 tour' /\ same_ends tour' [0; 1; 3; 2; 4; 0].
Proof.
  apply (@tours_stay_valid Q _ 5%nat sample_matrix).
  - lia.
  - solve_square.
  - split; [reflexivity | split; [reflexivity | split; [reflexivity | ]]].
    intros k Hk.
    assert (Hcases : k = 1 \/ k = 2 \/ k = 3 \/ k = 4) by (simpl in Hk; lia).
    destruct Hcases as [-> | [-> | [-> | ->]]]; reflexivity.
Defined.

(** C5, as the code has it: on an empty matrix [nearest_neighbor_tsp]
    raises [KeyError] at [unvisited.remove(current)], whatever the start
    index; on every [n] by [n] matrix with [n >= 1] and start index 0 it
    returns a closed tour. *)
Theorem nearest_neighbor_tsp_empty_raises {D : Type} `{Num D}
    (n : nat) (m : matrix D) :
  (1 <= n)%nat -> square n m ->
  (forall start_idx,
     nearest_neighbor_tsp ([] : matrix D) start_idx = Raise KeyError)
  /\ exists tour, nearest_neighbor_tsp m 0 = Ok tour /\ valid_tour n tour.
Proof.
  intros Hn Hsq. split; [reflexivity | ].
  destruct (@nearest_neighbor_tsp_shape D _ n m 0 Hsq) as (p & Hrun & Hperm);
    [lia | ].
  eexists. split; [exact Hrun | now apply valid_tour_of_shape].
Qed.

Lemma nearest_neighbor_tsp_empty_raises_witness :
  (forall start_idx,
     nearest_neighbor_tsp ([] : matrix Q) start_idx = Raise KeyError)
  /\ exists tour, nearest_neighbor_tsp sample_matrix 0 = Ok tour
                  /\ valid_tour 5 tour.
Proof.
  apply (@nearest_neighbor_tsp_empty_raises Q _ 5%nat sample_matrix);
    [lia | solve_square].
Defined.

(** C5 as stated fails: the empty matrix gives an error, not an empty tour. *)
Lemma nearest_neighbor_tsp_empty_not_a_tour :
  nearest_neighbor_tsp ([] : matrix Q) 0 = Raise KeyError
  /\ ~ (exists tour, nearest_neighbor_tsp ([] : matrix Q) 0 = Ok tour).
Proof.
  split; [reflexivity | ]. intros (tour & Hrun). discriminate Hrun.
Qed.

(** C7: with an iteration budget of 0, [two_opt_improvement] returns its
    input tour, for every tour whose entries index the square matrix; in
    particular the nearest-neighbour tour passes through it unmodified. *)
Theorem two_opt_zero_budget_is_identity {D : Type} `{Num D}
    (n : nat) (m : matrix D) (route : list Z) :
  (1 <= n)%nat -> square n m -> Forall (valid_index n) route ->
  two_opt_improvement route m 0 = Ok route
  /\ exists tour, nearest_neighbor_tsp m 0 = Ok tour
                  /\ two_opt_improvement tour m 0 = Ok tour.
Proof.
  intros Hn Hsq Hroute.
  assert (Hid : forall r, Forall (valid_index n) r ->
                  two_opt_improvement r m 0 = Ok r).
  { intros r Hvalid. rewrite two_opt_improvement_no_budget by lia.
    destruct (calculate_route_distance_ok Hsq Hvalid) as (d & ->).
    reflexivity. }
  split; [now apply Hid | ].
  destruct (@nearest_neighbor_tsp_shape D _ n m 0 Hsq) as (p & Hrun & Hperm);
    [lia | ].
  eexists. split; [exact Hrun | ].
  apply Hid. apply valid_tour_indices; [exact Hn | ].
  now apply valid_tour_of_shape.
Qed.

Lemma two_opt_zero_budget_is_identity_witness :
  two_opt_improvement [0; 4; 2; 1; 3; 0] sample_matrix 0
  = Ok [0; 4; 2; 1; 3; 0]
  /\ exists tour, nearest_neighbor_tsp sample_matrix 0 = Ok tour
                  /\ two_opt_improvement tour sample_matrix 0 = Ok tour.
Proof.
  apply (@two_opt_zero_budget_is_identity Q _ 5%nat sample_matrix).
  - lia.
  - solve_square.
  - solve_indices.
Defined.

(** C10, as the code has it: a negative iteration budget is not rejected;
    [range(max_iterations)] is empty, so the call behaves as with budget 0
    and returns the input tour once its distance has been computed. *)
Theorem two_opt_negative_budget_returns_input {D : Type} `{Num D}
    (n : nat) (m : matrix D) (route : list Z) (max_iterations : Z) :
  max_iterations < 0 -> square n m -> Forall (valid_index n) route ->
  two_opt_improvement route m max_iterations = Ok route
  /\ two_opt_improvement route m max_iterations
     = two_opt_improvement route m 0.
Proof.
  intros Hneg Hsq Hvalid. split.
  - rewrite two_opt_improvement_no_budget by lia.
    destruct (calculate_route_distance_ok Hsq Hvalid) as (d & ->).
    reflexivity.
  - now rewrite !two_opt_improvement_no_budget by lia.
Qed.

Lemma two_opt_negative_budget_returns_input_witness :
  two_opt_improvement [0; 1; 3; 2; 4; 0] sample_matrix (-7)
  = Ok [0; 1; 3; 2; 4; 0]
  /\ two_opt_improvement [0; 1; 3; 2; 4; 0] sample_matrix (-7)
     = two_opt_improvement [0; 1; 3; 2; 4; 0] sample_matrix 0.
Proof.
  apply (@two_opt_negative_budget_returns_input Q _ 5%nat).
  - lia.
  - solve_square.
  - solve_indices.
Defined.

(** C10 as stated fails: a negative budget yields a tour, not an error. *)
Lemma two_opt_negative_budget_not_rejected :
  ~ (forall (route : list Z) (m : matrix Q) (max_iterations : Z),
       max_iterations < 0 ->
       exists e, two_opt_improvement route m max_iterations = Raise e).
Proof.
  intro Hclaim.
  destruct (Hclaim [0; 1; 3; 2; 4; 0] sample_matrix (-1)) as (e & He); [lia | ].
  vm_compute in He. discriminate He.
Qed.

(** * [calculate_distance] *)

Section HaversineFacts.

Import PrimFloat.
Local Open Scope float_scope.

(** C9: [calculate_distance] raises on the valid coordinates (8, 0) and
    (-8, 180).  With the values the C library gives for the sine of
    -0.13962634015954636 (-0.13917310096006544), the sine of pi/2 (1), the
    cosine of 0.13962634015954636 on both signs (0.9902680687415704) and
    the two squares, the sum [a] rounds to 1.0000000000000002, so
    [1 - a] is negative and [math.sqrt(1 - a)] raises [ValueError]. *)
Theorem calculate_distance_domain_error
    (math_sin math_cos : float -> result float)
    (math_atan2 float_pow : float -> float -> result float) :
  math_sin (-0x1.1df46a2529d39p-3) = Ok (-0x1.1d06c968d9e19p-3) ->
  math_sin 0x1.921fb54442d18p+0 = Ok 1 ->
  math_cos 0x1.1df46a2529d39p-3 = Ok 0x1.fb046a930947ap-1 ->
  math_cos (-0x1.1df46a2529d39p-3) = Ok 0x1.fb046a930947ap-1 ->
  float_pow (-0x1.1d06c968d9e19p-3) 2 = Ok 0x1.3d581ca184804p-6 ->
  float_pow 1 2 = Ok 1 ->
  Haversine.calculate_distance math_sin math_cos math_atan2 float_pow
    8 0 (-8) 180
  = Raise ValueError.
Proof.
  intros Hsin_dlat Hsin_dlon Hcos_lat1 Hcos_lat2 Hpow_dlat Hpow_dlon.
  unfold Haversine.calculate_distance. cbv zeta.
  replace ((Haversine.math_radians (-8) - Haversine.math_radians 8) / 2)
    with (-0x1.1df46a2529d39p-3) by (vm_compute; reflexivity).
  rewrite Hsin_dlat. cbn [bind]. rewrite Hpow_dlat. cbn [bind].
  replace (Haversine.math_radians 8)
    with 0x1.1df46a2529d39p-3 by (vm_compute; reflexivity).
  rewrite Hcos_lat1. cbn [bind].
  replace (Haversine.math_radians (-8))
    with (-0x1.1df46a2529d39p-3) by (vm_compute; reflexivity).
  rewrite Hcos_lat2. cbn [bind].
  replace ((Haversine.math_radians 180 - Haversine.math_radians 0) / 2)
    with 0x1.921fb54442d18p+0 by (vm_compute; reflexivity).
  rewrite Hsin_dlon. cbn [bind]. rewrite Hpow_dlon. cbn [bind].
  vm_compute. reflexivity.
Qed.

Lemma calculate_distance_domain_error_witness :
  Haversine.calculate_distance Haversine.table_sin Haversine.table_cos
    Haversine.table_atan2 Haversine.table_pow 8 0 (-8) 180
  = Raise ValueError.
Proof.
  apply calculate_distance_domain_error; vm_compute; reflexivity.
Defined.

(** The sum that [math.sqrt(1 - a)] is applied to, and the two sides of
    the domain check. *)
Example haversine_sum_above_one :
  let a := 0x1.3d581ca184804p-6
           + 0x1.fb046a930947ap-1 * 0x1.fb046a930947ap-1 * 1 in
  a = 0x1.0000000000001p+0
  /\ 1 - a = -0x1p-52
  /\ Haversine.math_sqrt a = Ok 1
  /\ Haversine.math_sqrt (1 - a) = Raise ValueError.
Proof. repeat split. Qed.

End HaversineFacts.

(** * The planner *)

Section PlanFacts.

Context {D : Type} `{Num D}.
Variable calculate_distance : D -> D -> D -> D -> result D.

Lemma efficiency_of_spec (total_revenue total_distance : D) :
  (dltb dzero total_distance = true ->
   efficiency_of total_revenue total_distance
   = Ok (ddiv total_revenue total_distance))
  /\ (dltb dzero total_distance = false ->
      efficiency_of total_revenue total_distance = Ok dzero).
Proof.
  unfold efficiency_of, py_div. split; intros ->; [ | reflexivity].
  now rewrite andb_false_r.
Qed.

(** What the loop body computed for a day that has a result. *)
Lemma plan_day_inv (weekly_data : list (CollectionRequest D))
    (depots : frame (DepotRow D)) (prices : list (PriceRow D)) (day : day_value)
    (r : DayResult.t D) :
  plan_day calculate_distance weekly_data depots prices day = Ok (Some r) ->
  let day_data := filter (fun row => day_eqb (Day row) day) weekly_data in
  exists dist_matrix initial_route,
    create_distance_matrix calculate_distance (DayResult.locations r)
    = Ok dist_matrix
    /\ nearest_neighbor_tsp dist_matrix 0 = Ok initial_route
    /\ two_opt_improvement initial_route dist_matrix default_max_iterations
       = Ok (DayResult.route r)
    /\ calculate_route_distance (DayResult.route r) dist_matrix
       = Ok (DayResult.distance r)
    /\ DayResult.revenue r = total_revenue_of day_data prices
    /\ DayResult.collections r = day_data
    /\ efficiency_of (DayResult.revenue r) (DayResult.distance r)
       = Ok (DayResult.efficiency r).
Proof.
  intros Hplan day_data. unfold plan_day in Hplan. fold day_data in Hplan.
  destruct (Nat.eqb (length day_data) 0); [discriminate | ].
  inv_bind Hplan. inv_bind Hplan. inv_bind Hplan. inv_bind Hplan.
  inv_bind Hplan. inv_bind Hplan.
  injection Hplan as <-. simpl. eauto 10.
Qed.

Lemma days_loop_In (weekly_data : list (CollectionRequest D))
    (depots : frame (DepotRow D)) (prices : list (PriceRow D))
    (days : list day_value) :
  forall acc results day r,
  days_loop calculate_distance weekly_data depots prices days acc = Ok results ->
  In (day, r) results ->
  In (day, r) acc
  \/ plan_day calculate_distance weekly_data depots prices day = Ok (Some r).
Proof.
  induction days as [ | d days IH]; simpl; intros acc results day r Hloop Hin.
  - injection Hloop as <-. now left.
  - inv_bind Hloop. destruct v as [rd | ].
    + destruct (IH _ _ _ _ Hloop Hin) as [Hacc | Hplan]; [ | now right].
      apply in_app_or in Hacc. destruct Hacc as [Hacc | [Heq | []]];
        [now left | ].
      injection Heq as <- <-. now right.
    + eapply IH; eassumption.
Qed.

Lemma optimize_weekly_routes_In (weekly_data : list (CollectionRequest D))
    (depots : frame (DepotRow D)) (prices : list (PriceRow D))
    (results : list (day_value * DayResult.t D)) (day : day_value)
    (r : DayResult.t D) :
  optimize_weekly_routes calculate_distance weekly_data depots prices
  = Ok results ->
  In (day, r) results ->
  plan_day calculate_distance weekly_data depots prices day = Ok (Some r).
Proof.
  unfold optimize_weekly_routes. intros Hrun Hin.
  destruct (days_loop_In _ _ _ _ _ _ _ Hrun Hin) as [[] | Hplan].
  exact Hplan.
Qed.





End PlanFacts.

(** * The claims on the planner *)

(** C6: [select_optimal_depot] keeps the index label of the best row and
    hands it to [depots.iloc], which reads it as a position.  On the sample
    day, with the two sample depots under the labels 1 and 0, the summed
    distances are 60 for North and 8 for Central; the loop ends with
    Central's label 0, and the row returned is the one at position 0,
    North, which is not the depot of least summed distance.  Under the
    labels 7 and 9 the label kept is no position at all and the call
    raises. *)
Theorem select_optimal_depot_label_read_as_position :
  depot_total taxicab sample_week north = Ok (zq 60)
  /\ depot_total taxicab sample_week central = Ok (zq 8)
  /\ dltb (zq 8) (zq 60) = true
  /\ depot_loop taxicab sample_week relabelled_depots 0 Infinity = Ok 0
  /\ select_optimal_depot taxicab sample_week relabelled_depots
     = Ok (0, north)
  /\ select_optimal_depot taxicab sample_week [(7, north); (9, central)]
     = Raise IndexError.
Proof.
  split; [vm_compute; reflexivity | ].
  split; [vm_compute; reflexivity | ].
  split; [vm_compute; reflexivity | ].
  split; [vm_compute; reflexivity | ].
  split; vm_compute; reflexivity.
Qed.

(** C8: in every day result of [optimize_weekly_routes] the efficiency is
    the revenue divided by the distance when the distance is strictly
    positive, and 0 otherwise, in particular when the distance is 0; the
    efficiency expression never divides by zero. *)
Theorem efficiency_is_guarded {D : Type} `{Num D}
    (calculate_distance : D -> D -> D -> D -> result D)
    (weekly_data : list (CollectionRequest D)) (depots : frame (DepotRow D))
    (prices : list (PriceRow D)) (results : list (day_value * DayResult.t D))
    (day : day_value) (r : DayResult.t D) :
  optimize_weekly_routes calculate_distance weekly_data depots prices
  = Ok results ->
  In (day, r) results ->
  (dltb dzero (DayResult.distance r) = true ->
   DayResult.efficiency r
   = ddiv (DayResult.revenue r) (DayResult.distance r))
  /\ (DayResult.distance r = dzero -> DayResult.efficiency r = dzero)
  /\ (dltb dzero (DayResult.distance r) = false ->
      DayResult.efficiency r = dzero)
  /\ forall total_revenue total_distance,
       exists e, efficiency_of total_revenue total_distance = Ok e.
Proof.
  intros Hrun Hin.
  pose proof (optimize_weekly_routes_In _ _ _ _ _ _ Hrun Hin) as Hplan.
  apply plan_day_inv in Hplan.
  destruct Hplan as (m & initial & _ & _ & _ & _ & _ & _ & Heff).
  destruct (efficiency_of_spec (DayResult.revenue r) (DayResult.distance r))
    as (Hpos & Hzero).
  assert (Hnonpos : dltb dzero (DayResult.distance r) = false ->
                    DayResult.efficiency r = dzero).
  { intro Hd. rewrite (Hzero Hd) in Heff. now injection Heff. }
  repeat split.
  - intro Hd. rewrite (Hpos Hd) in Heff. now injection Heff.
  - intro Hd. apply Hnonpos. rewrite Hd. apply dltb_irrefl.
  - exact Hnonpos.
  - intros rev d. destruct (efficiency_of_spec rev d) as (Hp & Hz).
    destruct (dltb dzero d); eexists; [apply Hp | apply Hz]; reflexivity.
Qed.

Lemma efficiency_is_guarded_witness :
  exists r,
    optimize_weekly_routes taxicab sample_week sample_depots sample_prices
    = Ok [(Some "Mon"%string, r)]
    /\ DayResult.efficiency r
       = ddiv (DayResult.revenue r) (DayResult.distance r).
Proof.
  eexists. split; [vm_compute; reflexivity | ].
  eapply (@efficiency_is_guarded Q _ taxicab sample_week sample_depots
            sample_prices _ (Some "Mon"%string)).
  - vm_compute. reflexivity.
  - left. reflexivity.
  - vm_compute. reflexivity.
Defined.




(** Every day is planned with the default budget of [two_opt_improvement],
    whatever level [main] was given. *)
Lemma planner_budget_is_default {D : Type} `{Num D}
    (calculate_distance : D -> D -> D -> D -> result D)
    (selected_days : list day_value) (optimization_level : string)
    (weekly_routes : list (CollectionRequest D))
    (depot_locations : frame (DepotRow D))
    (material_prices : list (PriceRow D))
    (results : list (day_value * DayResult.t D)) (day : day_value)
    (r : DayResult.t D) :
  main calculate_distance selected_days optimization_level weekly_routes
    depot_locations material_prices = Some (Ok results) ->
  In (day, r) results ->
  exists dist_matrix initial_route,
    create_distance_matrix calculate_distance (DayResult.locations r)
    = Ok dist_matrix
    /\ nearest_neighbor_tsp dist_matrix 0 = Ok initial_route
    /\ two_opt_improvement initial_route dist_matrix 1000
       = Ok (DayResult.route r).
Proof.
  unfold main. intros Hmain Hin.
  destruct (Nat.eqb _ 0); [discriminate | ].
  injection Hmain as Hrun.
  pose proof (optimize_weekly_routes_In _ _ _ _ _ _ Hrun Hin) as Hplan.
  apply plan_day_inv in Hplan.
  destruct Hplan as (m & initial & Hm & Hnn & Hopt & _).
  exists m, initial. auto.
Qed.

(** C3, where the code departs from it: [config.py] gives "Basic" the
    budget 0 and "Premium" 5000, but [main] never passes the selected
    level on, so the results do not depend on it; on the sample day the
    "Basic" selection returns the tour that 2-opt reaches with budget 1000,
    which differs from the nearest-neighbour tour that budget 0 keeps. *)
Theorem optimization_level_is_ignored :
  config.iterations_of "Basic (Nearest Neighbor)" = Ok 0
  /\ config.iterations_of "Advanced (2-Opt)" = Ok 1000
  /\ config.iterations_of "Premium (Multi-iteration)" = Ok 5000
  /\ (forall (calculate_distance : Q -> Q -> Q -> Q -> result Q)
        selected_days level level' weekly_routes depot_locations
        material_prices,
        main calculate_distance selected_days level weekly_routes
          depot_locations material_prices
        = main calculate_distance selected_days level' weekly_routes
            depot_locations material_prices)
  /\ exists r dist_matrix initial_route,
       main taxicab [Some "Mon"%string] "Basic (Nearest Neighbor)" sample_week
         sample_depots sample_prices = Some (Ok [(Some "Mon"%string, r)])
       /\ create_distance_matrix taxicab (DayResult.locations r)
          = Ok dist_matrix
       /\ nearest_neighbor_tsp dist_matrix 0 = Ok initial_route
       /\ two_opt_improvement initial_route dist_matrix 0 = Ok initial_route
       /\ two_opt_improvement initial_route dist_matrix 1000
          = Ok (DayResult.route r)
       /\ initial_route = [0; 1; 2; 3; 0]
       /\ DayResult.route r = [0; 2; 1; 3; 0].
Proof.
  split; [reflexivity | ]. split; [reflexivity | ]. split; [reflexivity | ].
  split; [reflexivity | ].
  eexists. eexists. eexists.
  split; [vm_compute; reflexivity | ].
  split; [vm_compute; reflexivity | ].
  split; [vm_compute; reflexivity | ].
  split; [vm_compute; reflexivity | ].
  split; [vm_compute; reflexivity | ].
  split; reflexivity.
Qed.

(** * Further properties of the code *)

(** ** [create_distance_matrix] *)

Lemma mapM_Forall2 {A B : Type} (f : A -> result B) (l : list A) :
  forall bs, mapM f l = Ok bs -> Forall2 (fun a b => f a = Ok b) l bs.
Proof.
  induction l as [ | a l IH]; simpl; intros bs Hm.
  - injection Hm as <-. constructor.
  - inv_bind Hm. inv_bind Hm. injection Hm as <-. constructor; auto.
Qed.

Lemma mapM_total {A B : Type} (f : A -> result B) (l : list A) :
  (forall a, In a l -> exists b, f a = Ok b) -> exists bs, mapM f l = Ok bs.
Proof.
  induction l as [ | a l IH]; simpl; intro Hf; [now exists [] | ].
  destruct (Hf a) as (b & ->); [now left | ].
  destruct IH as (bs & ->); [intros x Hx; apply Hf; now right | ].
  now exists (b :: bs).
Qed.

Lemma Forall2_nth_error {A B : Type} (R : A -> B -> Prop) (l : list A)
    (l' : list B) :
  Forall2 R l l' ->
  forall i a, nth_error l i = Some a ->
  exists b, nth_error l' i = Some b /\ R a b.
Proof.
  induction 1 as [ | x y l l' Hxy _ IH]; intros i a Hi.
  - now destruct i.
  - destruct i as [ | i]; simpl in *.
    + injection Hi as <-. now exists y.
    + now apply IH.
Qed.

Lemma Forall2_nth_error_r {A B : Type} (R : A -> B -> Prop) (l : list A)
    (l' : list B) :
  Forall2 R l l' ->
  forall i b, nth_error l' i = Some b ->
  exists a, nth_error l i = Some a /\ R a b.
Proof.
  induction 1 as [ | x y l l' Hxy _ IH]; intros i b Hi.
  - now destruct i.
  - destruct i as [ | i]; simpl in *.
    + injection Hi as <-. now exists x.
    + now apply IH.
Qed.

Lemma combine_seq_nth_error {A : Type} (l : list A) :
  forall s i a, nth_error l i = Some a ->
  nth_error (combine (seq s (length l)) l) i = Some ((s + i)%nat, a).
Proof.
  induction l as [ | x l IH]; intros s i a Hi; [now destruct i | ].
  destruct i as [ | i]; simpl in *.
  - injection Hi as <-. now rewrite Nat.add_0_r.
  - rewrite (IH (S s) i a Hi). f_equal. f_equal. lia.
Qed.

Lemma enumerate_nth_error {A : Type} (l : list A) (i : nat) (a : A) :
  nth_error l i = Some a -> nth_error (enumerate l) i = Some (i, a).
Proof. intro Hi. unfold enumerate. now rewrite (combine_seq_nth_error l 0 i Hi). Qed.

Lemma enumerate_length {A : Type} (l : list A) :
  length (enumerate l) = length l.
Proof. unfold enumerate. rewrite length_combine, length_seq. lia. Qed.

Lemma enumerate_In {A : Type} (l : list A) (i : nat) (a : A) :
  In (i, a) (enumerate l) -> nth_error l i = Some a.
Proof.
  unfold enumerate.
  assert (Hgen : forall s, In (i, a) (combine (seq s (length l)) l) ->
                   (s <= i)%nat /\ nth_error l (i - s) = Some a).
  { induction l as [ | x l IH]; simpl; intros s Hin; [contradiction | ].
    destruct Hin as [Heq | Hin].
    - injection Heq as <- <-. split; [lia | now rewrite Nat.sub_diag].
    - destruct (IH (S s) Hin) as (Hle & Hnth). split; [lia | ].
      replace (i - s)%nat with (S (i - S s)) by lia. exact Hnth. }
  intro Hin. destruct (Hgen 0%nat Hin) as (_ & Hnth).
  now rewrite Nat.sub_0_r in Hnth.
Qed.

Lemma np_index_nat {A : Type} (l : list A) (i : nat) (a : A) :
  nth_error l i = Some a -> np_index l (Z.of_nat i) = Ok a.
Proof.
  intro Hi. unfold np_index.
  assert (Hlt : (i < length l)%nat) by (apply nth_error_Some; congruence).
  replace (Z.of_nat i <? 0) with false by (symmetry; apply Z.ltb_ge; lia).
  replace ((0 <=? Z.of_nat i) && (Z.of_nat i <? Z.of_nat (length l)))
    with true
    by (symmetry; apply andb_true_iff; split;
        [apply Z.leb_le | apply Z.ltb_lt]; lia).
  now rewrite Nat2Z.id, Hi.
Qed.

Section MatrixFacts.

Context {D : Type} `{Num D}.
Variable calculate_distance : D -> D -> D -> D -> result D.

Lemma create_distance_matrix_rows (locations : list (D * D)) (m : matrix D) :
  create_distance_matrix calculate_distance locations = Ok m ->
  Forall2 (fun '(i, li) row =>
             Forall2 (fun '(j, lj) d => cell calculate_distance i j li lj = Ok d)
               (enumerate locations) row)
    (enumerate locations) m.
Proof.
  unfold create_distance_matrix. intro Hm.
  apply mapM_Forall2 in Hm.
  eapply Forall2_impl; [ | exact Hm].
  intros [i li] row Hrow. apply mapM_Forall2 in Hrow.
  eapply Forall2_impl; [ | exact Hrow].
  intros [j lj] d Hd. exact Hd.
Qed.

Lemma create_distance_matrix_square (locations : list (D * D)) (m : matrix D) :
  create_distance_matrix calculate_distance locations = Ok m ->
  square (length locations) m.
Proof.
  intro Hm. apply create_distance_matrix_rows in Hm. split.
  - apply Forall2_length in Hm. now rewrite enumerate_length in Hm.
  - apply Forall_forall. intros row Hrow.
    apply In_nth_error in Hrow. destruct Hrow as (i & Hi).
    destruct (Forall2_nth_error_r Hm _ Hi) as ([i' li] & _ & Hr).
    apply Forall2_length in Hr. now rewrite enumerate_length in Hr.
Qed.

Lemma create_distance_matrix_entry (locations : list (D * D)) (m : matrix D)
    (i j : nat) (li lj : D * D) :
  create_distance_matrix calculate_distance locations = Ok m ->
  nth_error locations i = Some li -> nth_error locations j = Some lj ->
  exists d, entry m (Z.of_nat i) (Z.of_nat j) = Ok d /\ cell calculate_distance i j li lj = Ok d.
Proof.
  intros Hm Hi Hj. apply create_distance_matrix_rows in Hm.
  destruct (Forall2_nth_error Hm _ (enumerate_nth_error _ _ Hi))
    as (row & Hrow & Hcells).
  destruct (Forall2_nth_error Hcells _ (enumerate_nth_error _ _ Hj))
    as (d & Hd & Hcell).
  exists d. split; [ | exact Hcell].
  unfold entry. rewrite (np_index_nat _ _ Hrow). cbn [bind].
  now apply np_index_nat.
Qed.

Lemma create_distance_matrix_total (locations : list (D * D)) :
  (forall i j li lj, i <> j ->
     nth_error locations i = Some li -> nth_error locations j = Some lj ->
     computes calculate_distance li lj) ->
  exists m, create_distance_matrix calculate_distance locations = Ok m.
Proof.
  intro Hcd. unfold create_distance_matrix.
  apply mapM_total. intros [i li] Hi.
  apply mapM_total. intros [j lj] Hj.
  destruct (Nat.eqb_spec i j) as [Heq | Hneq]; [now exists dzero | ].
  apply (Hcd i j li lj Hneq); now apply enumerate_In.
Qed.

End MatrixFacts.

(** Every cell of the matrix [create_distance_matrix] returns: the matrix is
    square over the locations, zero on the diagonal, and holds
    [calculate_distance] of the two locations elsewhere. *)
Theorem create_distance_matrix_cells {D : Type} `{Num D}
    (calculate_distance : D -> D -> D -> D -> result D)
    (locations : list (D * D)) (m : matrix D) :
  create_distance_matrix calculate_distance locations = Ok m ->
  square (length locations) m
  /\ forall i j li lj,
       nth_error locations i = Some li -> nth_error locations j = Some lj ->
       exists d, entry m (Z.of_nat i) (Z.of_nat j) = Ok d
         /\ (i = j -> d = dzero)
         /\ (i <> j ->
             calculate_distance (fst li) (snd li) (fst lj) (snd lj) = Ok d).
Proof.
  intro Hm. split; [now apply create_distance_matrix_square in Hm | ].
  intros i j li lj Hi Hj.
  destruct (create_distance_matrix_entry _ _ _ _ Hm Hi Hj) as (d & Hd & Hcell).
  exists d. unfold cell in Hcell. split; [exact Hd | split].
  - intros ->. rewrite Nat.eqb_refl in Hcell. now injection Hcell.
  - intro Hneq. apply Nat.eqb_neq in Hneq. now rewrite Hneq in Hcell.
Qed.

Lemma create_distance_matrix_cells_witness :
  exists m,
    create_distance_matrix taxicab [(zq 0, zq 0); (zq 1, zq 0); (zq (-1), zq 1)]
    = Ok m
    /\ square 3 m
    /\ forall i j li lj,
         nth_error [(zq 0, zq 0); (zq 1, zq 0); (zq (-1), zq 1)] i = Some li ->
         nth_error [(zq 0, zq 0); (zq 1, zq 0); (zq (-1), zq 1)] j = Some lj ->
         exists d, entry m (Z.of_nat i) (Z.of_nat j) = Ok d
           /\ (i = j -> d = dzero)
           /\ (i <> j -> taxicab (fst li) (snd li) (fst lj) (snd lj) = Ok d).
Proof.
  eexists. split; [vm_compute; reflexivity | ].
  apply (@create_distance_matrix_cells Q _ taxicab
           [(zq 0, zq 0); (zq 1, zq 0); (zq (-1), zq 1)]).
  vm_compute. reflexivity.
Defined.

(** When [calculate_distance] is symmetric on the locations, so is the
    matrix of [create_distance_matrix]. *)
Theorem create_distance_matrix_symmetric {D : Type} `{Num D}
    (calculate_distance : D -> D -> D -> D -> result D)
    (locations : list (D * D)) (m : matrix D) (i j : nat) :
  (forall li lj, In li locations -> In lj locations ->
     calculate_distance (fst li) (snd li) (fst lj) (snd lj)
     = calculate_distance (fst lj) (snd lj) (fst li) (snd li)) ->
  create_distance_matrix calculate_distance locations = Ok m ->
  (i < length locations)%nat -> (j < length locations)%nat ->
  exists d, entry m (Z.of_nat i) (Z.of_nat j) = Ok d
            /\ entry m (Z.of_nat j) (Z.of_nat i) = Ok d.
Proof.
  intros Hsym Hm Hi Hj.
  destruct (nth_error locations i) as [li | ] eqn:Hli;
    [ | apply nth_error_None in Hli; lia].
  destruct (nth_error locations j) as [lj | ] eqn:Hlj;
    [ | apply nth_error_None in Hlj; lia].
  destruct (create_distance_matrix_entry _ _ _ _ Hm Hli Hlj) as (d & Hd & Hc).
  destruct (create_distance_matrix_entry _ _ _ _ Hm Hlj Hli) as (d' & Hd' & Hc').
  exists d. split; [exact Hd | ]. rewrite Hd'. f_equal.
  unfold cell in Hc, Hc'. rewrite (Nat.eqb_sym j i) in Hc'.
  destruct (Nat.eqb i j); [congruence | ].
  rewrite (Hsym li lj) in Hc by (eapply nth_error_In; eassumption).
  congruence.
Qed.

Lemma create_distance_matrix_symmetric_witness :
  exists m d,
    create_distance_matrix taxicab [(zq 0, zq 0); (zq 1, zq 0); (zq (-1), zq 1)]
    = Ok m
    /\ entry m 1 2 = Ok d /\ entry m 2 1 = Ok d.
Proof.
  eexists.
  destruct (@create_distance_matrix_symmetric Q _ taxicab
              [(zq 0, zq 0); (zq 1, zq 0); (zq (-1), zq 1)]
              (map (map zq) [[0; 1; 2]; [1; 0; 3]; [2; 3; 0]]) 1%nat 2%nat)
    as (d & Hd & Hd').
  - intros li lj [<- | [<- | [<- | []]]] [<- | [<- | [<- | []]]];
      vm_compute; reflexivity.
  - vm_compute. reflexivity.
  - simpl. lia.
  - simpl. lia.
  - exists d. split; [vm_compute; reflexivity | split; assumption].
Defined.

(** ** [nearest_neighbor_tsp]: the greedy choice and the start index *)

Lemma set_remove_absent (x : Z) (s : list Z) :
  ~ In x s -> set_remove x s = Raise KeyError.
Proof.
  induction s as [ | y s IH]; simpl; intro Hnot; [reflexivity | ].
  destruct (Z.eqb_spec x y) as [-> | Hneq]; [exfalso; apply Hnot; now left | ].
  rewrite IH; [reflexivity | ]. intro Hin. apply Hnot. now right.
Qed.

Lemma last_cons_default {A : Type} (l : list A) :
  forall a d, last (a :: l) d = last l a.
Proof.
  induction l as [ | b l IH]; intros a d; [reflexivity | ].
  change (last (a :: b :: l) d) with (last (b :: l) d).
  now rewrite !IH.
Qed.

Lemma zrange_sorted (n : nat) : StronglySorted Z.lt (zrange n).
Proof.
  unfold zrange. generalize 0%nat as s.
  induction n as [ | n IH]; intro s; simpl; constructor.
  - apply IH.
  - apply Forall_forall. intros y Hy. apply in_map_iff in Hy.
    destruct Hy as (k & <- & Hk). apply in_seq in Hk. lia.
Qed.

Lemma set_remove_sorted (x : Z) (s : list Z) :
  forall s', StronglySorted Z.lt s -> set_remove x s = Ok s' ->
  StronglySorted Z.lt s'.
Proof.
  induction s as [ | y s IH]; simpl; intros s' Hsorted Hrem; [discriminate | ].
  apply StronglySorted_inv in Hsorted. destruct Hsorted as (Hs & Hy).
  destruct (Z.eqb x y); [now injection Hrem as <- | ].
  inv_bind Hrem. injection Hrem as <-. constructor; [now apply IH | ].
  apply Forall_forall. intros z Hz. rewrite Forall_forall in Hy. apply Hy.
  eapply Permutation_in; [symmetry; apply set_remove_perm; exact Hv | ].
  now right.
Qed.

Section GreedyFacts.

Context {D : Type} `{Num D}.

(** The keys compared all lie in a set of comparable values. *)
Variable P : D -> Prop.
Hypothesis P_comparable : comparable P.

Lemma least_key_replace (key : Z -> result D) (seen : list Z)
    (best z : Z) (bk kz : D) :
  (forall y k, key y = Ok k -> P k) ->
  least_key key best bk seen -> (forall y, In y seen -> y < z) ->
  key z = Ok kz -> dltb kz bk = true ->
  least_key key z kz (seen ++ [z]).
Proof.
  intros HP (Hbest & Hseen) Hbefore Hz Hlt. split; [exact Hz | ].
  intros y Hy. apply in_app_or in Hy. destruct Hy as [Hy | [<- | []]].
  - destruct (Hseen y Hy) as (ky & Hky & Hle & _). exists ky.
    split; [exact Hky | ]. unfold dle in *. split.
    + destruct (dltb ky kz) eqn:Hyz; [ | reflexivity].
      rewrite (dltb_trans _ _ _ Hyz Hlt) in Hle. discriminate.
    + intros _.
      destruct (P_comparable (HP _ _ Hz) (HP _ _ Hbest) (HP _ _ Hky) Hlt)
        as [Hgoal | Hbad]; [exact Hgoal | congruence].
  - exists kz. split; [exact Hz | ]. split; [apply dltb_irrefl | lia].
Qed.

Lemma least_key_keep (key : Z -> result D) (seen : list Z)
    (best z : Z) (bk kz : D) :
  least_key key best bk seen -> In best seen ->
  (forall y, In y seen -> y < z) ->
  key z = Ok kz -> dltb kz bk = false ->
  least_key key best bk (seen ++ [z]).
Proof.
  intros (Hbest & Hseen) Hin Hbefore Hz Hnot. split; [exact Hbest | ].
  intros y Hy. apply in_app_or in Hy. destruct Hy as [Hy | [<- | []]].
  - now apply Hseen.
  - exists kz. split; [exact Hz | ]. split; [exact Hnot | ].
    intro Hlt. specialize (Hbefore best Hin). lia.
Qed.

Lemma min_from_least (key : Z -> result D) (rest : list Z) :
  (forall y k, key y = Ok k -> P k) ->
  forall seen best bk x,
  min_from key best bk rest = Ok x ->
  least_key key best bk seen -> In best seen ->
  (forall y z, In y seen -> In z rest -> y < z) ->
  StronglySorted Z.lt rest ->
  exists kx, least_key key x kx (seen ++ rest).
Proof.
  intro HP.
  induction rest as [ | z rest IH]; simpl;
    intros seen best bk x Hmin Hleast Hin Hbefore Hsorted.
  - injection Hmin as <-. exists bk. now rewrite app_nil_r.
  - inv_bind Hmin. rename v into kz.
    apply StronglySorted_inv in Hsorted. destruct Hsorted as (Hrest & Hz).
    rewrite Forall_forall in Hz.
    assert (Hbefore' : forall y w, In y (seen ++ [z]) -> In w rest -> y < w).
    { intros y w Hy Hw. apply in_app_or in Hy.
      destruct Hy as [Hy | [<- | []]]; [ | now apply Hz].
      apply Hbefore; [exact Hy | now right]. }
    assert (Hz' : forall y, In y seen -> y < z)
      by (intros y Hy; apply Hbefore; [exact Hy | now left]).
    replace (seen ++ z :: rest) with ((seen ++ [z]) ++ rest)
      by now rewrite <- app_assoc.
    destruct (dltb kz bk) eqn:Hlt.
    + apply (IH (seen ++ [z]) z kz x Hmin); try assumption.
      * eapply least_key_replace; eassumption.
      * apply in_or_app. right. now left.
    + apply (IH (seen ++ [z]) best bk x Hmin); try assumption.
      * eapply least_key_keep; eassumption.
      * apply in_or_app. now left.
Qed.

Lemma py_min_least (key : Z -> result D) (items : list Z) (x : Z) :
  (forall y k, key y = Ok k -> P k) ->
  StronglySorted Z.lt items -> py_min key items = Ok x ->
  exists kx, least_key key x kx items.
Proof.
  intro HP.
  destruct items as [ | first rest]; simpl; intros Hsorted Hmin;
    [discriminate | ].
  inv_bind Hmin. rename v into k.
  apply StronglySorted_inv in Hsorted. destruct Hsorted as (Hrest & Hfirst).
  rewrite Forall_forall in Hfirst.
  eapply min_from_least with (seen := [first]).
  - exact HP.
  - exact Hmin.
  - split; [exact Hv | ]. intros y [<- | []]. exists k.
    split; [exact Hv | ]. split; [apply dltb_irrefl | lia].
  - now left.
  - intros y z [<- | []] Hz. now apply Hfirst.
  - exact Hrest.
Qed.

Lemma nn_loop_greedy (m : matrix D) (fuel : nat) :
  (forall d, cell_of m d -> P d) ->
  forall (current : Z) (unvisited route r : list Z),
  StronglySorted Z.lt unvisited ->
  nn_loop fuel m current unvisited route = Ok r ->
  exists p, r = route ++ p
    /\ forall p1 x p2, p = p1 ++ x :: p2 ->
         nearest_among m (last p1 current) x (x :: p2).
Proof.
  intro HP.
  induction fuel as [ | fuel IH]; intros current unvisited route r Hsorted Hrun.
  - destruct unvisited; simpl in Hrun; [ | discriminate].
    injection Hrun as <-. exists []. split; [now rewrite app_nil_r | ].
    intros p1 x p2 Hp. now destruct p1.
  - destruct unvisited as [ | u unvisited].
    + simpl in Hrun. injection Hrun as <-. exists [].
      split; [now rewrite app_nil_r | ]. intros p1 x p2 Hp. now destruct p1.
    + cbn [nn_loop] in Hrun. inv_bind Hrun. inv_bind Hrun.
      rename v into nearest, v0 into unvisited'.
      assert (Hkeys : forall y k, entry m current y = Ok k -> P k)
        by (intros y k Hk; apply HP; now exists current, y).
      pose proof (py_min_least _ Hkeys Hsorted Hv) as (dx & Hleast).
      pose proof (set_remove_sorted _ Hsorted Hv0) as Hsorted'.
      pose proof (set_remove_perm _ _ Hv0) as Hperm.
      destruct (nn_loop_spec _ _ _ _ _ Hrun) as (p' & Hr' & Hp').
      destruct (IH _ _ _ _ Hsorted' Hrun) as (p & -> & Hgreedy).
      apply app_inv_head in Hr'. subst p'.
      exists (nearest :: p). split; [now rewrite <- app_assoc | ].
      intros p1 x p2 Hsplit. destruct p1 as [ | y p1]; simpl in Hsplit.
      * injection Hsplit as <- <-. exists dx.
        destruct Hleast as (Hkey & Hall). split; [exact Hkey | ].
        intros y Hy. apply Hall.
        eapply Permutation_in; [symmetry; exact Hperm | ].
        destruct Hy as [<- | Hy]; [now left | right].
        eapply Permutation_in; eassumption.
      * injection Hsplit as Hy Hp. subst y p.
        rewrite last_cons_default. now apply Hgreedy.
Qed.

End GreedyFacts.

(** On a square matrix whose cells are comparable (none of them is NaN),
    each stop of the tour [nearest_neighbor_tsp] returns is, seen from the
    stop before it, a nearest of the locations not yet visited, and the one
    of lowest index among the nearest. *)
Theorem nearest_neighbor_tsp_greedy {D : Type} `{Num D}
    (n : nat) (m : matrix D) (start_idx : Z) :
  square n m -> 0 <= start_idx < Z.of_nat n ->
  comparable (cell_of m) ->
  exists p,
    nearest_neighbor_tsp m start_idx = Ok (start_idx :: p ++ [start_idx])
    /\ forall p1 x p2, p = p1 ++ x :: p2 ->
         nearest_among m (last p1 start_idx) x (x :: p2).
Proof.
  intros Hsq Hstart Hcomparable.
  destruct (nearest_neighbor_tsp_shape Hsq Hstart) as (p & Hrun & _).
  exists p. split; [exact Hrun | ].
  unfold nearest_neighbor_tsp in Hrun. inv_bind Hrun. inv_bind Hrun.
  injection Hrun as Hrun.
  assert (Hsorted : StronglySorted Z.lt v)
    by (eapply set_remove_sorted; [apply zrange_sorted | exact Hv]).
  destruct (@nn_loop_greedy D _ (cell_of m) Hcomparable m _ (fun d Hd => Hd)
              _ _ _ _ Hsorted Hv0)
    as (p' & -> & Hgreedy).
  simpl in Hrun. injection Hrun as Hrun. apply app_inv_tail in Hrun.
  now subst p'.
Qed.

Lemma nearest_neighbor_tsp_greedy_witness :
  exists p,
    nearest_neighbor_tsp sample_matrix 0 = Ok (0 :: p ++ [0])
    /\ forall p1 x p2, p = p1 ++ x :: p2 ->
         nearest_among sample_matrix (last p1 0) x (x :: p2).
Proof.
  apply (@nearest_neighbor_tsp_greedy Q _ 5%nat sample_matrix 0);
    [solve_square | simpl; lia | apply Q_comparable].
Defined.

(** A start index outside [0, len(distance_matrix)) makes
    [nearest_neighbor_tsp] raise [KeyError], negative indices included. *)
Theorem nearest_neighbor_tsp_start_outside {D : Type} `{Num D}
    (m : matrix D) (start_idx : Z) :
  ~ (0 <= start_idx < Z.of_nat (length m)) ->
  nearest_neighbor_tsp m start_idx = Raise KeyError.
Proof.
  intro Hout. unfold nearest_neighbor_tsp.
  rewrite set_remove_absent; [reflexivity | ].
  intro Hin. apply zrange_in in Hin. contradiction.
Qed.

Lemma nearest_neighbor_tsp_start_outside_witness :
  nearest_neighbor_tsp sample_matrix (-1) = Raise KeyError
  /\ nearest_neighbor_tsp sample_matrix 5 = Raise KeyError.
Proof.
  split; apply (@nearest_neighbor_tsp_start_outside Q _ sample_matrix);
    simpl; lia.
Defined.

(** From any start index inside the square matrix, [nearest_neighbor_tsp]
    returns a tour that begins and ends at the start and visits every index
    of the matrix exactly once in between and at the start. *)
Theorem nearest_neighbor_tsp_any_start {D : Type} `{Num D}
    (n : nat) (m : matrix D) (start_idx : Z) :
  square n m -> 0 <= start_idx < Z.of_nat n ->
  exists p,
    nearest_neighbor_tsp m start_idx = Ok (start_idx :: p ++ [start_idx])
    /\ Permutation (start_idx :: p) (zrange n)
    /\ length (start_idx :: p ++ [start_idx]) = S n.
Proof.
  intros Hsq Hstart.
  destruct (nearest_neighbor_tsp_shape Hsq Hstart) as (p & Hrun & Hperm).
  exists p. split; [exact Hrun | split; [exact Hperm | ]].
  apply Permutation_length in Hperm. rewrite zrange_length in Hperm.
  simpl in *. rewrite length_app. simpl. lia.
Qed.

Lemma nearest_neighbor_tsp_any_start_witness :
  exists p,
    nearest_neighbor_tsp sample_matrix 3 = Ok (3 :: p ++ [3])
    /\ Permutation (3 :: p) (zrange 5)
    /\ length (3 :: p ++ [3]) = 6%nat.
Proof.
  apply (@nearest_neighbor_tsp_any_start Q _ 5%nat sample_matrix 3);
    [solve_square | simpl; lia].
Defined.

(** ** [two_opt_improvement]: what the scan accepts and where it stops *)

Lemma np_index_invalid {A : Type} (l : list A) (i : Z) :
  ~ valid_index (length l) i -> np_index l i = Raise IndexError.
Proof.
  intro Hout. destruct (np_index l i) as [a | e | ] eqn:Hidx.
  - apply np_index_inv in Hidx. now destruct Hidx.
  - unfold np_index in Hidx. destruct (_ && _); [ | congruence].
    destruct (nth_error _ _); congruence.
  - now apply np_index_not_diverge in Hidx.
Qed.

Lemma seq_split_before (a n : nat) (js1 js2 : list nat) (j : nat) :
  seq a n = js1 ++ j :: js2 -> forall j', In j' js1 -> (a <= j' < j)%nat.
Proof.
  revert a js1. induction n as [ | n IH]; intros a js1 Hseq j' Hin.
  - now destruct js1.
  - destruct js1 as [ | x js1]; [contradiction | ].
    simpl in Hseq. injection Hseq as <- Hseq.
    assert (Hj : In j (seq (S a) n))
      by (rewrite Hseq; apply in_or_app; right; now left).
    apply in_seq in Hj.
    destruct Hin as [<- | Hin]; [lia | ].
    specialize (IH _ _ Hseq j' Hin). lia.
Qed.

Section ScanFacts.

Context {D : Type} `{Num D}.

Lemma scan_j_first (route : list Z) (m : matrix D) (best : D) (i : nat)
    (js : list nat) (r' : list Z) (d' : D) :
  scan_j route m best i js = Ok (Some (r', d')) ->
  exists js1 j js2, js = js1 ++ j :: js2
    /\ r' = two_opt_move route i j
    /\ forall j', In j' js1 -> rejected m route best i j'.
Proof.
  induction js as [ | j js IH]; simpl; intro Hs; [discriminate | ].
  inv_bind Hs. destruct (dltb v best) eqn:Hlt.
  - injection Hs as <- <-. exists [], j, js. repeat split. intros j' [].
  - destruct (IH Hs) as (js1 & j0 & js2 & -> & Hr & Hrej).
    exists (j :: js1), j0, js2. repeat split; [exact Hr | ].
    intros j' [<- | Hj']; [now exists v | now apply Hrej].
Qed.

Lemma scan_j_None (route : list Z) (m : matrix D) (best : D) (i : nat)
    (js : list nat) :
  scan_j route m best i js = Ok None <->
  forall j, In j js -> rejected m route best i j.
Proof.
  induction js as [ | j js IH]; simpl.
  - split; [intros _ j [] | reflexivity].
  - split.
    + intros Hs. inv_bind Hs. destruct (dltb v best) eqn:Hlt; [discriminate | ].
      intros j' [<- | Hj']; [now exists v | now apply IH].
    + intros Hall. destruct (Hall j) as (d' & -> & Hnot); [now left | ].
      cbn [bind]. rewrite Hnot. apply IH. intros j' Hj'. apply Hall. now right.
Qed.

Lemma scan_i_None (route : list Z) (m : matrix D) (best : D)
    (idxs : list nat) :
  scan_i route m best idxs = Ok None <->
  forall i j, In i idxs -> In j (range (i + 1) (length route - 1)) ->
              rejected m route best i j.
Proof.
  induction idxs as [ | i idxs IH]; simpl.
  - split; [intros _ i j [] | reflexivity].
  - split.
    + intros Hs. inv_bind Hs. destruct v as [move | ]; [discriminate | ].
      intros i' j [<- | Hi'] Hj.
      * now apply (proj1 (scan_j_None _ _ _ _ _) Hv).
      * now apply (proj1 IH Hs).
    + intros Hall.
      rewrite (proj2 (scan_j_None route m best i
                        (range (i + 1) (length route - 1)))).
      * cbn [bind]. apply IH. intros i' j Hi' Hj. apply Hall; [now right | exact Hj].
      * intros j Hj. apply Hall; [now left | exact Hj].
Qed.

Lemma scan_i_first (route : list Z) (m : matrix D) (best : D)
    (idxs : list nat) (r' : list Z) (d' : D) :
  scan_i route m best idxs = Ok (Some (r', d')) ->
  exists is1 i is2 js1 j js2,
    idxs = is1 ++ i :: is2
    /\ range (i + 1) (length route - 1) = js1 ++ j :: js2
    /\ r' = two_opt_move route i j
    /\ (forall j', In j' js1 -> rejected m route best i j')
    /\ forall i' j', In i' is1 ->
         In j' (range (i' + 1) (length route - 1)) ->
         rejected m route best i' j'.
Proof.
  induction idxs as [ | i idxs IH]; simpl; intro Hs; [discriminate | ].
  inv_bind Hs. destruct v as [[r0 d0] | ].
  - injection Hs as <- <-. apply scan_j_first in Hv.
    destruct Hv as (js1 & j & js2 & Hjs & Hr & Hrej).
    exists [], i, idxs, js1, j, js2. repeat split; try assumption.
    intros i' j' [].
  - destruct (IH Hs) as (is1 & i0 & is2 & js1 & j & js2
                         & -> & Hjs & Hr & Hrej & Hrows).
    exists (i :: is1), i0, is2, js1, j, js2. repeat split; try assumption.
    intros i' j' [<- | Hi'] Hj'.
    + now apply (proj1 (scan_j_None _ _ _ _ _) Hv).
    + now apply Hrows.
Qed.

(** The scan of a whole pass finds nothing exactly on a local optimum. *)
Lemma scan_None_locally_optimal (route : list Z) (m : matrix D) (d : D) :
  scan_i route m d (range 1 (length route - 2)) = Ok None <->
  locally_optimal m route d.
Proof.
  rewrite scan_i_None. unfold locally_optimal, scanned, rejected. split.
  - intros Hall i j (Hi & Hij & Hj). apply Hall; apply in_range; lia.
  - intros Hopt i j Hi Hj. apply in_range in Hi. apply in_range in Hj.
    apply Hopt. lia.
Qed.

Lemma two_opt_loop_changes (m : matrix D) (iterations : nat) :
  forall (route : list Z) (best_distance : D) (r' : list Z),
  calculate_route_distance route m = Ok best_distance ->
  two_opt_loop iterations route route best_distance m = Ok r' ->
  r' = route
  \/ exists d', calculate_route_distance r' m = Ok d'
                /\ dltb d' best_distance = true.
Proof.
  induction iterations as [ | k IH]; intros route bd r' Hbd Hloop.
  - simpl in Hloop. injection Hloop as <-. now left.
  - simpl in Hloop. inv_bind Hloop. destruct v as [[nr nd] | ].
    + apply scan_step in Hv. destruct Hv as (_ & Hnd & Hlt). right.
      destruct (IH nr nd r' Hnd Hloop) as [-> | (d' & Hd' & Hlt')].
      * now exists nd.
      * exists d'. split; [exact Hd' | eapply dltb_trans; eassumption].
    + injection Hloop as <-. now left.
Qed.

(** Once a pass finds nothing, more budget changes nothing. *)
Lemma two_opt_loop_converged (m : matrix D) (k : nat) :
  forall (route : list Z) (bd : D) (r : list Z) (d : D) (extra : nat),
  calculate_route_distance route m = Ok bd ->
  two_opt_loop k route route bd m = Ok r ->
  calculate_route_distance r m = Ok d ->
  locally_optimal m r d ->
  two_opt_loop (k + extra) route route bd m = Ok r.
Proof.
  induction k as [ | k IH]; intros route bd r d extra Hbd Hloop Hd Hopt.
  - simpl in Hloop. injection Hloop as <-.
    assert (d = bd) by congruence. subst d.
    destruct extra as [ | extra]; [reflexivity | ].
    simpl. now rewrite (proj2 (scan_None_locally_optimal _ _ _) Hopt).
  - simpl in Hloop. simpl. inv_bind Hloop. rewrite Hv. cbn [bind].
    destruct v as [[nr nd] | ].
    + apply scan_step in Hv. destruct Hv as (_ & Hnd & _).
      eapply IH; eassumption.
    + exact Hloop.
Qed.

Lemma two_opt_loop_stable (m : matrix D) (k : nat) :
  forall (route : list Z) (bd : D) (r : list Z),
  calculate_route_distance route m = Ok bd ->
  two_opt_loop k route route bd m = Ok r ->
  two_opt_loop (S k) route route bd m = Ok r ->
  exists d, calculate_route_distance r m = Ok d /\ locally_optimal m r d.
Proof.
  induction k as [ | k IH]; intros route bd r Hbd Hk HSk.
  - simpl in Hk. injection Hk as <-. simpl in HSk. inv_bind HSk.
    destruct v as [[nr nd] | ].
    + injection HSk as ->. apply scan_step in Hv.
      destruct Hv as (_ & Hnd & Hlt).
      assert (nd = bd) by congruence. subst nd.
      rewrite dltb_irrefl in Hlt. discriminate.
    + exists bd. split; [exact Hbd | ].
      now apply scan_None_locally_optimal.
  - simpl in Hk. inv_bind Hk.
    change (two_opt_loop (S (S k)) route route bd m)
      with (found <- scan_i route m bd (range 1 (length route - 2)) ;;
            match found with
            | Some (new_route, new_distance) =>
                two_opt_loop (S k) new_route new_route new_distance m
            | None => Ok route
            end) in HSk.
    rewrite Hv in HSk. cbn [bind] in HSk.
    destruct v as [[nr nd] | ].
    + pose proof Hv as Hstep. apply scan_step in Hstep.
      destruct Hstep as (_ & Hnd & _). eapply IH; eassumption.
    + injection Hk as <-. exists bd. split; [exact Hbd | ].
      now apply scan_None_locally_optimal.
Qed.

End ScanFacts.

(** Whenever [two_opt_improvement] returns, the result keeps the entries and
    both ends of the input, and is either the input itself or strictly
    shorter than it. *)
Theorem two_opt_improvement_same_or_shorter {D : Type} `{Num D}
    (route : list Z) (m : matrix D) (max_iterations : Z) (r' : list Z) :
  two_opt_improvement route m max_iterations = Ok r' ->
  same_ends r' route
  /\ (r' = route
      \/ exists d d', calculate_route_distance route m = Ok d
                      /\ calculate_route_distance r' m = Ok d'
                      /\ dltb d' d = true).
Proof.
  intro Hrun. split; [now apply two_opt_improvement_spec in Hrun | ].
  unfold two_opt_improvement in Hrun. inv_bind Hrun.
  destruct (two_opt_loop_changes _ _ _ Hv Hrun) as [-> | (d' & Hd' & Hlt)];
    [now left | right].
  exists v, d'. auto.
Qed.

Lemma two_opt_improvement_same_or_shorter_witness :
  same_ends [0; 1; 3; 4; 2; 0] [0; 1; 3; 2; 4; 0]
  /\ ([0; 1; 3; 4; 2; 0] = [0; 1; 3; 2; 4; 0]
      \/ exists d d',
           calculate_route_distance [0; 1; 3; 2; 4; 0] sample_matrix = Ok d
           /\ calculate_route_distance [0; 1; 3; 4; 2; 0] sample_matrix = Ok d'
           /\ dltb d' d = true).
Proof.
  apply (@two_opt_improvement_same_or_shorter Q _ [0; 1; 3; 2; 4; 0]
           sample_matrix 1000).
  vm_compute. reflexivity.
Defined.

(** On a tour that no scanned reversal makes strictly shorter,
    [two_opt_improvement] returns the tour itself, for every budget. *)
Theorem two_opt_improvement_keeps_local_optimum {D : Type} `{Num D}
    (route : list Z) (m : matrix D) (d : D) (max_iterations : Z) :
  calculate_route_distance route m = Ok d ->
  locally_optimal m route d ->
  two_opt_improvement route m max_iterations = Ok route.
Proof.
  intros Hd Hopt. unfold two_opt_improvement. rewrite Hd. cbn [bind].
  destruct (Z.to_nat max_iterations) as [ | k]; [reflexivity | ].
  simpl. now rewrite (proj2 (scan_None_locally_optimal _ _ _) Hopt).
Qed.

Lemma two_opt_improvement_keeps_local_optimum_witness :
  two_opt_improvement [0; 1; 3; 4; 2; 0] sample_matrix 5000
  = Ok [0; 1; 3; 4; 2; 0].
Proof.
  apply (@two_opt_improvement_keeps_local_optimum Q _ [0; 1; 3; 4; 2; 0]
           sample_matrix (zq 10)).
  - vm_compute. reflexivity.
  - apply scan_None_locally_optimal. vm_compute. reflexivity.
Defined.

(** When one more iteration of budget gives the same tour, that tour is a
    local optimum of the scan, and every larger budget returns it too. *)
Theorem two_opt_improvement_converged {D : Type} `{Num D}
    (route : list Z) (m : matrix D) (budget budget' : Z) (r : list Z) :
  0 <= budget -> budget <= budget' ->
  two_opt_improvement route m budget = Ok r ->
  two_opt_improvement route m (budget + 1) = Ok r ->
  (exists d, calculate_route_distance r m = Ok d /\ locally_optimal m r d)
  /\ two_opt_improvement route m budget' = Ok r.
Proof.
  intros Hb Hb' Hrun Hnext. unfold two_opt_improvement in *.
  inv_bind Hrun. inv_bind Hnext.
  assert (v0 = v) by congruence. subst v0.
  replace (Z.to_nat (budget + 1)) with (S (Z.to_nat budget)) in Hnext by lia.
  destruct (two_opt_loop_stable _ _ _ Hv Hrun Hnext) as (d & Hd & Hopt).
  split; [now exists d | ].
  rewrite Hv. cbn [bind].
  replace (Z.to_nat budget')
    with (Z.to_nat budget + (Z.to_nat budget' - Z.to_nat budget))%nat by lia.
  eapply two_opt_loop_converged; eassumption.
Qed.

Lemma two_opt_improvement_converged_witness :
  (exists d, calculate_route_distance [0; 1; 3; 4; 2; 0] sample_matrix = Ok d
             /\ locally_optimal sample_matrix [0; 1; 3; 4; 2; 0] d)
  /\ two_opt_improvement [0; 1; 3; 2; 4; 0] sample_matrix 1000
     = Ok [0; 1; 3; 4; 2; 0].
Proof.
  apply (@two_opt_improvement_converged Q _ [0; 1; 3; 2; 4; 0] sample_matrix
           1 1000 [0; 1; 3; 4; 2; 0]).
  - lia.
  - lia.
  - vm_compute. reflexivity.
  - vm_compute. reflexivity.
Defined.

Lemma seq_split_prefix (n : nat) :
  forall (a : nat) (l1 l2 : list nat) (x : nat),
  seq a n = l1 ++ x :: l2 -> l1 = seq a (x - a) /\ (a <= x)%nat.
Proof.
  induction n as [ | n IH]; intros a l1 l2 x Hseq.
  - now destruct l1.
  - destruct l1 as [ | y l1]; simpl in Hseq; injection Hseq as <- Hseq.
    + now rewrite Nat.sub_diag.
    + destruct (IH _ _ _ _ Hseq) as (-> & Hle). split; [ | lia].
      replace (x - a)%nat with (S (x - S a)) by lia. reflexivity.
Qed.

(** One iteration of [two_opt_improvement], read off its result: either the
    tour is a local optimum and is returned, or the first strictly shorter
    reversal in scan order is applied, every pair before it having been
    rejected, and the search restarts from the new tour with the rest of
    the budget. *)
Theorem two_opt_improvement_first_move {D : Type} `{Num D}
    (route : list Z) (m : matrix D) (d : D) (budget : Z) (r : list Z) :
  0 <= budget ->
  calculate_route_distance route m = Ok d ->
  two_opt_improvement route m (budget + 1) = Ok r ->
  (locally_optimal m route d /\ r = route)
  \/ exists i j d',
       scanned route i j
       /\ calculate_route_distance (two_opt_move route i j) m = Ok d'
       /\ dltb d' d = true
       /\ (forall i' j', scanned route i' j' ->
             (i' < i \/ (i' = i /\ j' < j))%nat -> rejected m route d i' j')
       /\ two_opt_improvement (two_opt_move route i j) m budget = Ok r.
Proof.
  intros Hb Hd Hrun. unfold two_opt_improvement in Hrun.
  rewrite Hd in Hrun. cbn [bind] in Hrun.
  replace (Z.to_nat (budget + 1)) with (S (Z.to_nat budget)) in Hrun by lia.
  simpl in Hrun. inv_bind Hrun. destruct v as [[nr nd] | ].
  - right. pose proof (scan_step _ _ _ Hv) as (_ & Hnd & Hlt).
    apply scan_i_first in Hv.
    destruct Hv as (is1 & i & is2 & js1 & j & js2
                    & His & Hjs & -> & Hrej & Hrows).
    assert (Hi : In i (range 1 (length route - 2)))
      by (rewrite His; apply in_or_app; right; now left).
    assert (Hj : In j (range (i + 1) (length route - 1)))
      by (rewrite Hjs; apply in_or_app; right; now left).
    apply in_range in Hi. apply in_range in Hj.
    unfold range in His, Hjs.
    apply seq_split_prefix in His. destruct His as (-> & _).
    apply seq_split_prefix in Hjs. destruct Hjs as (-> & _).
    exists i, j, nd. split; [unfold scanned; lia | ].
    split; [exact Hnd | ]. split; [exact Hlt | ]. split.
    + intros i' j' (Hi' & Hij' & Hj') [Hlt' | (-> & Hlt')].
      * apply Hrows; [apply in_seq; lia | apply in_range; lia].
      * apply Hrej. apply in_seq. lia.
    + unfold two_opt_improvement. rewrite Hnd. exact Hrun.
  - injection Hrun as <-. left. split; [ | reflexivity].
    now apply scan_None_locally_optimal.
Qed.

Lemma two_opt_improvement_first_move_witness :
  (locally_optimal sample_matrix [0; 1; 3; 2; 4; 0] (zq 13)
   /\ [0; 1; 3; 4; 2; 0] = [0; 1; 3; 2; 4; 0])
  \/ exists i j d',
       scanned [0; 1; 3; 2; 4; 0] i j
       /\ calculate_route_distance (two_opt_move [0; 1; 3; 2; 4; 0] i j)
            sample_matrix = Ok d'
       /\ dltb d' (zq 13) = true
       /\ (forall i' j', scanned [0; 1; 3; 2; 4; 0] i' j' ->
             (i' < i \/ (i' = i /\ j' < j))%nat ->
             rejected sample_matrix [0; 1; 3; 2; 4; 0] (zq 13) i' j')
       /\ two_opt_improvement (two_opt_move [0; 1; 3; 2; 4; 0] i j)
            sample_matrix 999 = Ok [0; 1; 3; 4; 2; 0].
Proof.
  apply (@two_opt_improvement_first_move Q _ [0; 1; 3; 2; 4; 0] sample_matrix
           (zq 13) 999 [0; 1; 3; 4; 2; 0]).
  - lia.
  - vm_compute. reflexivity.
  - vm_compute. reflexivity.
Defined.

(** ** Tours that leave the matrix *)

Section BoundsFacts.

Context {D : Type} `{Num D}.

Lemma entry_invalid (n : nat) (m : matrix D) (a b : Z) :
  square n m -> ~ (valid_index n a /\ valid_index n b) ->
  entry m a b = Raise IndexError.
Proof.
  intros [Hlen Hrows] Hout. unfold entry.
  destruct (np_index m a) as [row | e | ] eqn:Hrow.
  - cbn [bind]. apply np_index_inv in Hrow. destruct Hrow as (Ha & Hin).
    rewrite Forall_forall in Hrows. specialize (Hrows row Hin).
    apply np_index_invalid. rewrite Hrows. rewrite Hlen in Ha. tauto.
  - cbn [bind]. unfold np_index in Hrow. destruct (_ && _); [ | congruence].
    destruct (nth_error _ _); congruence.
  - now apply np_index_not_diverge in Hrow.
Qed.

Lemma route_distance_from_invalid (n : nat) (m : matrix D) (route : list Z) :
  square n m -> (2 <= length route)%nat ->
  Exists (fun x => ~ valid_index n x) route ->
  forall total, route_distance_from total route m = Raise IndexError.
Proof.
  intros Hsq. induction route as [ | a rest IH]; intros Hlen Hex total;
    [simpl in Hlen; lia | ].
  destruct rest as [ | b rest']; [simpl in Hlen; lia | ].
  cbn [route_distance_from].
  destruct (entry m a b) as [d | e | ] eqn:Hentry.
  - cbn [bind]. apply IH.
    + destruct rest' as [ | c rest''].
      * exfalso. unfold entry in Hentry. inv_bind Hentry.
        destruct Hsq as [Hl Hrows].
        apply np_index_inv in Hv. destruct Hv as (Ha & Hin).
        rewrite Forall_forall in Hrows. specialize (Hrows _ Hin).
        apply np_index_inv in Hentry. destruct Hentry as (Hb & _).
        rewrite Hl in Ha. rewrite Hrows in Hb.
        inversion Hex as [? ? Hbad | ? ? Hex']; subst; [contradiction | ].
        inversion Hex' as [? ? Hbad | ? ? Hex'']; subst; [contradiction | ].
        inversion Hex''.
      * simpl. lia.
    + inversion Hex as [? ? Hbad | ? ? Hex']; subst; [ | exact Hex'].
      exfalso. unfold entry in Hentry. inv_bind Hentry.
      apply np_index_inv in Hv. destruct Hsq as [Hl _]. rewrite Hl in Hv.
      now destruct Hv.
  - cbn [bind]. f_equal.
    unfold entry in Hentry.
    destruct (np_index m a) as [row | e' | ] eqn:Hrow; cbn [bind] in Hentry.
    + unfold np_index in Hentry. destruct (_ && _); [ | congruence].
      destruct (nth_error _ _); congruence.
    + unfold np_index in Hrow. destruct (_ && _); [ | congruence].
      destruct (nth_error _ _); congruence.
    + discriminate.
  - now apply entry_not_diverge in Hentry.
Qed.

End BoundsFacts.

(** A tour of two or more entries that names an index outside the square
    matrix is refused with [IndexError], by [calculate_route_distance] and
    by [two_opt_improvement] before any move is tried; a tour of fewer than
    two entries has distance zero whatever its entry. *)
Theorem route_outside_matrix_raises {D : Type} `{Num D}
    (n : nat) (m : matrix D) (route : list Z) (max_iterations : Z) :
  square n m -> (2 <= length route)%nat ->
  Exists (fun x => ~ valid_index n x) route ->
  calculate_route_distance route m = Raise IndexError
  /\ two_opt_improvement route m max_iterations = Raise IndexError
  /\ forall x, calculate_route_distance [x] m = Ok dzero.
Proof.
  intros Hsq Hlen Hex.
  assert (Hcalc : calculate_route_distance route m = Raise IndexError)
    by (unfold calculate_route_distance;
        eapply route_distance_from_invalid; eassumption).
  split; [exact Hcalc | split; [ | reflexivity]].
  unfold two_opt_improvement. now rewrite Hcalc.
Qed.

Lemma route_outside_matrix_raises_witness :
  calculate_route_distance [0; 2; 5; 0] sample_matrix = Raise IndexError
  /\ two_opt_improvement [0; 2; 5; 0] sample_matrix 1000 = Raise IndexError
  /\ forall x, calculate_route_distance [x] sample_matrix = Ok dzero.
Proof.
  apply (@route_outside_matrix_raises Q _ 5%nat sample_matrix [0; 2; 5; 0]).
  - solve_square.
  - simpl. lia.
  - right. right. left. unfold valid_index. simpl. lia.
Defined.

(** ** [optimize_weekly_routes]: the shape of the results *)

Lemma same_day_eq (a b : day_value) : same_day a b = true <-> a = b.
Proof.
  destruct a as [x | ], b as [y | ]; simpl.
  - rewrite String.eqb_eq. split; [now intros -> | now intros [= ->]].
  - split; discriminate.
  - split; discriminate.
  - split; reflexivity.
Qed.

Lemma day_eqb_eq (a b : day_value) :
  day_eqb a b = true <-> a = b /\ dated a = true.
Proof.
  destruct a as [x | ], b as [y | ]; simpl.
  - rewrite String.eqb_eq. split; [now intros -> | now intros ([= ->] & _)].
  - split; [discriminate | now intros (? & _)].
  - split; [discriminate | now intros (_ & ?)].
  - split; [discriminate | now intros (_ & ?)].
Qed.

Lemma unique_In (l : list day_value) (x : day_value) :
  In x (unique l) -> In x l.
Proof.
  induction l as [ | y l IH]; simpl; [tauto | ].
  intros [-> | Hin]; [now left | right].
  apply filter_In in Hin. apply IH. tauto.
Qed.

Lemma unique_NoDup (l : list day_value) : NoDup (unique l).
Proof.
  induction l as [ | y l IH]; simpl; constructor.
  - intro Hin. apply filter_In in Hin. destruct Hin as (_ & Hneq).
    now rewrite (proj2 (same_day_eq y y) eq_refl) in Hneq.
  - now apply NoDup_filter.
Qed.

Lemma unique_complete (l : list day_value) (x : day_value) :
  In x l -> In x (unique l).
Proof.
  induction l as [ | y l IH]; simpl; [tauto | ].
  intros [-> | Hin]; [now left | ].
  destruct (same_day y x) eqn:Hyx.
  - apply same_day_eq in Hyx. now left.
  - right. apply filter_In. split; [now apply IH | now rewrite Hyx].
Qed.

Lemma existsb_dated_unique (l : list day_value) :
  existsb dated (unique l) = existsb dated l.
Proof.
  apply eq_iff_eq_true. rewrite !existsb_exists.
  split; intros (x & Hin & Hx); exists x; split; try exact Hx.
  - now apply unique_In.
  - now apply unique_complete.
Qed.

(** Two positions of a selection of rows are two positions of the table. *)
Lemma nth_error_filter_lt {A : Type} (f : A -> bool) (l : list A) :
  forall i j a b, (i < j)%nat ->
  nth_error (filter f l) i = Some a -> nth_error (filter f l) j = Some b ->
  exists i' j', (i' < j')%nat
    /\ nth_error l i' = Some a /\ nth_error l j' = Some b.
Proof.
  induction l as [ | x l IH]; intros i j a b Hij Hi Hj.
  - now destruct i.
  - simpl in Hi, Hj. destruct (f x).
    + destruct j as [ | j]; [lia | ]. simpl in Hj.
      destruct i as [ | i]; simpl in Hi.
      * injection Hi as ->.
        assert (Hb : In b l)
          by (eapply (proj1 (filter_In f b l)), nth_error_In; exact Hj).
        apply In_nth_error in Hb. destruct Hb as (j' & Hj').
        exists 0%nat, (S j'). split; [lia | now split].
      * destruct (IH i j a b) as (i' & j' & Hlt & Hi' & Hj');
          [lia | exact Hi | exact Hj | ].
        exists (S i'), (S j'). split; [lia | now split].
    + destruct (IH i j a b Hij Hi Hj) as (i' & j' & Hlt & Hi' & Hj').
      exists (S i'), (S j'). split; [lia | now split].
Qed.

Lemma rows_default_index {A : Type} (l : list A) : rows (default_index l) = l.
Proof.
  unfold rows, default_index, zrange. generalize 0%nat as s.
  induction l as [ | a l IH]; intro s; simpl; [reflexivity | ].
  now rewrite IH.
Qed.

Lemma labels_default_index {A : Type} (l : list A) :
  map fst (default_index l) = zrange (length l).
Proof.
  unfold default_index, zrange. generalize 0%nat as s.
  induction l as [ | a l IH]; intro s; simpl; [reflexivity | ].
  now rewrite IH.
Qed.

Section ResultFacts.

Context {D : Type} `{Num D}.
Variable calculate_distance : D -> D -> D -> D -> result D.

Lemma select_optimal_depot_In (day_data : list (CollectionRequest D))
    (depots : frame (DepotRow D)) (idx : Z) (depot : DepotRow D) :
  select_optimal_depot calculate_distance day_data depots = Ok (idx, depot) ->
  In depot (rows depots).
Proof.
  unfold select_optimal_depot, iloc. intro Hsel. inv_bind Hsel. inv_bind Hsel.
  injection Hsel as <- <-. apply np_index_inv in Hv0. apply Hv0.
Qed.

(** The fields of a day's result besides the tour and its metrics. *)
Lemma plan_day_fields (weekly_data : list (CollectionRequest D))
    (depots : frame (DepotRow D)) (prices : list (PriceRow D)) (day : day_value)
    (r : DayResult.t D) :
  plan_day calculate_distance weekly_data depots prices day = Ok (Some r) ->
  let day_data := filter (fun row => day_eqb (Day row) day) weekly_data in
  day_data <> []
  /\ DayResult.collections r = day_data
  /\ In (DayResult.depot r) (rows depots)
  /\ DayResult.locations r
     = (depot_Latitude (DayResult.depot r), depot_Longitude (DayResult.depot r))
       :: map (fun row => (Latitude row, Longitude row)) day_data
  /\ DayResult.weight r
     = nansum (map (fun row => Some (Estimated_Weight_kg row)) day_data).
Proof.
  intros Hplan day_data. unfold plan_day in Hplan. fold day_data in Hplan.
  destruct day_data as [ | row0 rest] eqn:Hdata; [discriminate | ].
  cbn [length Nat.eqb] in Hplan.
  inv_bind Hplan. destruct v as [idx depot_info]. cbn [snd] in Hplan.
  inv_bind Hplan. inv_bind Hplan. inv_bind Hplan. inv_bind Hplan.
  inv_bind Hplan. injection Hplan as <-. cbn.
  split; [discriminate | ]. split; [reflexivity | ].
  split; [ | split; reflexivity].
  eapply select_optimal_depot_In. eassumption.
Qed.

Lemma plan_day_tour (weekly_data : list (CollectionRequest D))
    (depots : frame (DepotRow D)) (prices : list (PriceRow D)) (day : day_value)
    (r : DayResult.t D) :
  plan_day calculate_distance weekly_data depots prices day = Ok (Some r) ->
  valid_tour (length (DayResult.locations r)) (DayResult.route r)
  /\ exists dist_matrix,
       create_distance_matrix calculate_distance (DayResult.locations r)
       = Ok dist_matrix
       /\ calculate_route_distance (DayResult.route r) dist_matrix
          = Ok (DayResult.distance r).
Proof.
  intro Hplan. pose proof (plan_day_fields _ _ _ _ Hplan) as Hfields.
  cbv zeta in Hfields. destruct Hfields as (_ & _ & _ & Hloc & _).
  apply plan_day_inv in Hplan. cbv zeta in Hplan.
  destruct Hplan as (m & initial & Hm & Hnn & Hopt & Hdist & _).
  split; [ | now exists m].
  pose proof (create_distance_matrix_square _ _ Hm) as Hsq.
  destruct (@nearest_neighbor_tsp_shape D _ _ m 0 Hsq) as (p & Hrun & Hperm).
  { rewrite Hloc. simpl. lia. }
  rewrite Hrun in Hnn. injection Hnn as <-.
  apply two_opt_improvement_spec in Hopt. destruct Hopt as (Hends & _).
  eapply valid_tour_same_ends; [ | exact Hends].
  now apply valid_tour_of_shape.
Qed.

(** The [continue] does not fire for a day that some row carries. *)
Lemma plan_day_nonempty (weekly_data : list (CollectionRequest D))
    (depots : frame (DepotRow D)) (prices : list (PriceRow D)) (day : day_value) :
  dated day = true -> In day (map (@Day D) weekly_data) ->
  plan_day calculate_distance weekly_data depots prices day <> Ok None.
Proof.
  intros Hdated Hin Hplan. apply in_map_iff in Hin.
  destruct Hin as (row & Hday & Hrow).
  unfold plan_day in Hplan.
  destruct (filter (fun x => day_eqb (Day x) day) weekly_data)
    as [ | row0 rest] eqn:Hdata.
  - assert (Hin : In row (filter (fun x => day_eqb (Day x) day) weekly_data)).
    { apply filter_In. split; [exact Hrow | ]. apply day_eqb_eq.
      split; [exact Hday | now rewrite Hday]. }
    rewrite Hdata in Hin. contradiction.
  - cbn [length Nat.eqb] in Hplan.
    repeat (match type of Hplan with
            | bind ?c _ = _ => destruct c; cbn [bind] in Hplan;
                               try discriminate
            end).
Qed.

(** It fires for the missing value: no row equals it. *)
Lemma plan_day_missing (weekly_data : list (CollectionRequest D))
    (depots : frame (DepotRow D)) (prices : list (PriceRow D)) (day : day_value) :
  dated day = false ->
  plan_day calculate_distance weekly_data depots prices day = Ok None.
Proof.
  intro Hday. unfold plan_day.
  replace (filter (fun row => day_eqb (Day row) day) weekly_data)
    with (@nil (CollectionRequest D)); [reflexivity | ].
  symmetry. induction weekly_data as [ | row rest IH]; [reflexivity | ].
  simpl. destruct (day_eqb (Day row) day) eqn:Heq; [ | exact IH].
  apply day_eqb_eq in Heq. destruct Heq as (<- & Hrow). congruence.
Qed.

Lemma days_loop_keys (weekly_data : list (CollectionRequest D))
    (depots : frame (DepotRow D)) (prices : list (PriceRow D))
    (days : list day_value) :
  (forall day, In day days -> In day (map (@Day D) weekly_data)) ->
  forall acc results,
  days_loop calculate_distance weekly_data depots prices days acc = Ok results ->
  map fst results = map fst acc ++ filter dated days.
Proof.
  induction days as [ | day days IH]; simpl; intros Hdays acc results Hloop.
  - injection Hloop as <-. now rewrite app_nil_r.
  - inv_bind Hloop. destruct (dated day) eqn:Hdated.
    + destruct v as [r | ].
      * rewrite (IH (fun d Hd => Hdays d (or_intror Hd)) _ _ Hloop).
        rewrite map_app, <- app_assoc. reflexivity.
      * exfalso. eapply plan_day_nonempty; [exact Hdated | | exact Hv].
        apply Hdays. now left.
    + rewrite (plan_day_missing _ _ _ _ Hdated) in Hv. injection Hv as <-.
      apply (IH (fun d Hd => Hdays d (or_intror Hd)) _ _ Hloop).
Qed.

(** Without a depot, the first day that some row carries raises. *)
Lemma days_loop_no_depot (weekly_data : list (CollectionRequest D))
    (prices : list (PriceRow D)) (days : list day_value) :
  (forall day, In day days -> In day (map (@Day D) weekly_data)) ->
  forall acc,
  days_loop calculate_distance weekly_data [] prices days acc
  = if existsb dated days then Raise IndexError else Ok acc.
Proof.
  induction days as [ | day days IH]; intros Hdays acc; [reflexivity | ].
  cbn [days_loop existsb]. destruct (dated day) eqn:Hdated.
  - cbn [orb].
    assert (Hin : In day (map (@Day D) weekly_data)) by (apply Hdays; now left).
    apply in_map_iff in Hin. destruct Hin as (row & Hday & Hrow).
    unfold plan_day.
    destruct (filter (fun x => day_eqb (Day x) day) weekly_data)
      as [ | row0 rest] eqn:Hdata; [ | reflexivity].
    assert (Hin : In row (filter (fun x => day_eqb (Day x) day) weekly_data)).
    { apply filter_In. split; [exact Hrow | ]. apply day_eqb_eq.
      split; [exact Hday | now rewrite Hday]. }
    rewrite Hdata in Hin. contradiction.
  - rewrite (plan_day_missing _ _ _ _ Hdated). cbn [bind orb].
    apply IH. intros d Hd. apply Hdays. now right.
Qed.

(** The inner loop of [select_optimal_depot] returns when
    [calculate_distance] does on the depot and each collection point. *)
Lemma total_dist_from_total (depot : DepotRow D)
    (day_data : list (CollectionRequest D)) :
  (forall row, In row day_data ->
     computes calculate_distance (site_of depot) (point_of row)) ->
  forall total, exists s,
    total_dist_from calculate_distance total depot day_data = Ok s.
Proof.
  induction day_data as [ | row rest IH]; intros Hcd total; simpl.
  - now exists total.
  - destruct (Hcd row (or_introl eq_refl)) as (v & Hv).
    cbn [site_of point_of fst snd] in Hv. rewrite Hv. cbn [bind].
    apply IH. intros r Hr. apply Hcd. now right.
Qed.

(** The label the depot loop ends with is the one it started from or the
    label of a row. *)
Lemma depot_loop_label (day_data : list (CollectionRequest D))
    (iterrows : list (Z * DepotRow D)) :
  (forall idx depot row, In (idx, depot) iterrows -> In row day_data ->
     computes calculate_distance (site_of depot) (point_of row)) ->
  forall best min_total, exists best',
    depot_loop calculate_distance day_data iterrows best min_total = Ok best'
    /\ (best' = best \/ In best' (map fst iterrows)).
Proof.
  induction iterrows as [ | [idx depot] iterrows IH];
    intros Hcd best min_total.
  - exists best. split; [reflexivity | now left].
  - cbn [depot_loop].
    destruct (@total_dist_from_total depot day_data
                (fun row Hrow => Hcd idx depot row (or_introl eq_refl) Hrow)
                dzero) as (s & ->).
    cbn [bind].
    assert (Hcd' : forall i d row, In (i, d) iterrows -> In row day_data ->
                     computes calculate_distance (site_of d) (point_of row))
      by (intros i d row Hi Hr; apply (Hcd i d row); [now right | exact Hr]).
    destruct (lt_extended s min_total).
    + destruct (IH Hcd' idx (Finite s)) as (best' & Hrun & Hlabel).
      exists best'. split; [exact Hrun | right].
      destruct Hlabel as [-> | Hin]; [now left | now right].
    + destruct (IH Hcd' best min_total) as (best' & Hrun & Hlabel).
      exists best'. split; [exact Hrun | ].
      destruct Hlabel as [-> | Hin]; [now left | right; now right].
Qed.

(** On a table with the default index the label is a position. *)
Lemma select_optimal_depot_total (day_data : list (CollectionRequest D))
    (depots : list (DepotRow D)) :
  depots <> [] ->
  (forall depot row, In depot depots -> In row day_data ->
     computes calculate_distance (site_of depot) (point_of row)) ->
  exists idx depot,
    select_optimal_depot calculate_distance day_data (default_index depots)
    = Ok (idx, depot)
    /\ In depot depots.
Proof.
  intros Hne Hcd. unfold select_optimal_depot.
  destruct (@depot_loop_label day_data (default_index depots)) with
    (best := 0) (min_total := @Infinity D) as (best & Hrun & Hlabel).
  { intros idx depot row Hin. apply Hcd.
    apply (in_map snd) in Hin. fold (rows (default_index depots)) in Hin.
    now rewrite rows_default_index in Hin. }
  rewrite Hrun. cbn [bind]. rewrite rows_default_index.
  assert (Hbest : valid_index (length depots) best).
  { unfold valid_index. destruct Hlabel as [-> | Hin].
    - destruct depots; [congruence | simpl; lia].
    - rewrite labels_default_index in Hin. apply zrange_in in Hin. lia. }
  unfold iloc. destruct (np_index_ok _ Hbest) as (depot & -> & Hin).
  cbn [bind]. now exists best, depot.
Qed.

Lemma plan_day_total (weekly_data : list (CollectionRequest D))
    (depots : list (DepotRow D)) (prices : list (PriceRow D)) (day : day_value) :
  depots <> [] ->
  (forall depot row, In depot depots -> In row weekly_data ->
     dated (Day row) = true ->
     computes calculate_distance (site_of depot) (point_of row)
     /\ computes calculate_distance (point_of row) (site_of depot)) ->
  (forall i j row row', i <> j ->
     nth_error weekly_data i = Some row ->
     nth_error weekly_data j = Some row' ->
     day_eqb (Day row) (Day row') = true ->
     computes calculate_distance (point_of row) (point_of row')) ->
  exists planned,
    plan_day calculate_distance weekly_data (default_index depots) prices day
    = Ok planned.
Proof.
  intros Hdepots Hsite Hpoints. unfold plan_day.
  set (day_data := filter (fun row => day_eqb (Day row) day) weekly_data).
  assert (Hday : forall row, In row day_data ->
                   In row weekly_data /\ Day row = day /\ dated (Day row) = true).
  { intros row Hrow. apply filter_In in Hrow. destruct Hrow as (Hin & Heq).
    apply day_eqb_eq in Heq. tauto. }
  destruct (Nat.eqb (length day_data) 0); [now exists None | ].
  destruct (@select_optimal_depot_total day_data depots Hdepots)
    as (idx & depot & -> & Hdepot).
  { intros d row Hd Hrow. destruct (Hday row Hrow) as (Hin & _ & Hdated).
    now apply Hsite. }
  cbn [bind snd].
  set (locations := (depot_Latitude depot, depot_Longitude depot)
                    :: map (fun row => (Latitude row, Longitude row)) day_data).
  destruct (@create_distance_matrix_total _ _ calculate_distance locations)
    as (m & Hm).
  { intros i j li lj Hij Hi Hj. subst locations.
    assert (Hrow : forall k lk,
              nth_error (map (fun row : CollectionRequest D =>
                                (Latitude row, Longitude row)) day_data) k
              = Some lk ->
              exists row, nth_error day_data k = Some row
                          /\ lk = point_of row).
    { intros k lk Hk. rewrite nth_error_map in Hk.
      destruct (nth_error day_data k) as [row | ]; [ | discriminate].
      injection Hk as <-. now exists row. }
    destruct i as [ | i], j as [ | j]; simpl in Hi, Hj.
    - congruence.
    - injection Hi as <-. destruct (Hrow _ _ Hj) as (row & Hnth & ->).
      apply nth_error_In in Hnth. destruct (Hday row Hnth) as (Hin & _ & Hdated).
      apply (Hsite depot row Hdepot Hin Hdated).
    - injection Hj as <-. destruct (Hrow _ _ Hi) as (row & Hnth & ->).
      apply nth_error_In in Hnth. destruct (Hday row Hnth) as (Hin & _ & Hdated).
      apply (Hsite depot row Hdepot Hin Hdated).
    - destruct (Hrow _ _ Hi) as (row & Hnth & ->).
      destruct (Hrow _ _ Hj) as (row' & Hnth' & ->).
      assert (Hsame : day_eqb (Day row) (Day row') = true).
      { apply day_eqb_eq.
        destruct (Hday row (nth_error_In _ _ Hnth)) as (_ & -> & Hd).
        destruct (Hday row' (nth_error_In _ _ Hnth')) as (_ & -> & Hd').
        split; [reflexivity | exact Hd']. }
      destruct (Nat.lt_total i j) as [Hlt | [Heq | Hgt]]; [ | lia | ].
      + destruct (nth_error_filter_lt _ _ Hlt Hnth Hnth')
          as (i' & j' & Hlt' & Hi' & Hj').
        apply (Hpoints i' j'); [lia | exact Hi' | exact Hj' | exact Hsame].
      + destruct (nth_error_filter_lt _ _ Hgt Hnth' Hnth)
          as (j' & i' & Hlt' & Hj' & Hi').
        apply (Hpoints i' j'); [lia | exact Hi' | exact Hj' | exact Hsame]. }
  rewrite Hm. cbn [bind].
  pose proof (create_distance_matrix_square _ _ Hm) as Hsq.
  destruct (@nearest_neighbor_tsp_shape D _ _ m 0 Hsq) as (p & Hrun & Hperm);
    [subst locations; simpl; lia | ].
  rewrite Hrun. cbn [bind].
  assert (Hvalid : Forall (valid_index (length locations)) (0 :: p ++ [0])).
  { apply valid_tour_indices; [subst locations; simpl; lia | ].
    now apply valid_tour_of_shape. }
  destruct (two_opt_improvement_total default_max_iterations Hsq Hvalid)
    as (optimized & Hopt).
  rewrite Hopt. cbn [bind].
  assert (Hvalid' : Forall (valid_index (length locations)) optimized).
  { apply two_opt_improvement_spec in Hopt. destruct Hopt as ((Hp & _) & _).
    eapply Permutation_Forall; [ | exact Hvalid]. now symmetry. }
  destruct (calculate_route_distance_ok Hsq Hvalid') as (dist & ->).
  cbn [bind].
  destruct (efficiency_of_spec (total_revenue_of day_data prices) dist)
    as (Hpos & Hzero).
  destruct (dltb dzero dist) eqn:Hd;
    [rewrite (Hpos eq_refl) | rewrite (Hzero eq_refl)];
    cbn [bind]; eexists; reflexivity.
Qed.

Lemma days_loop_total (weekly_data : list (CollectionRequest D))
    (depots : list (DepotRow D)) (prices : list (PriceRow D))
    (days : list day_value) :
  depots <> [] ->
  (forall depot row, In depot depots -> In row weekly_data ->
     dated (Day row) = true ->
     computes calculate_distance (site_of depot) (point_of row)
     /\ computes calculate_distance (point_of row) (site_of depot)) ->
  (forall i j row row', i <> j ->
     nth_error weekly_data i = Some row ->
     nth_error weekly_data j = Some row' ->
     day_eqb (Day row) (Day row') = true ->
     computes calculate_distance (point_of row) (point_of row')) ->
  forall acc, exists results,
    days_loop calculate_distance weekly_data (default_index depots) prices
      days acc = Ok results.
Proof.
  intros Hdepots Hsite Hpoints.
  induction days as [ | day days IH]; intro acc; simpl.
  - now exists acc.
  - destruct (@plan_day_total weekly_data depots prices day Hdepots Hsite
                Hpoints) as (planned & ->).
    cbn [bind]. destruct planned; apply IH.
Qed.

End ResultFacts.

(** The results of [optimize_weekly_routes] have one entry per distinct day
    of the input, in order of first appearance, the missing value left out:
    the [continue] of the loop fires for the missing value and for nothing
    else.  Every row that has a day finds its day among the results; a row
    without one is in no result. *)
Theorem optimize_weekly_routes_days {D : Type} `{Num D}
    (calculate_distance : D -> D -> D -> D -> result D)
    (weekly_data : list (CollectionRequest D)) (depots : frame (DepotRow D))
    (prices : list (PriceRow D)) (results : list (day_value * DayResult.t D)) :
  optimize_weekly_routes calculate_distance weekly_data depots prices
  = Ok results ->
  map fst results = filter dated (unique (map (@Day D) weekly_data))
  /\ NoDup (map fst results)
  /\ (forall row, In row weekly_data -> dated (Day row) = true ->
        In (Day row) (map fst results))
  /\ ~ In None (map fst results)
  /\ forall day r row, In (day, r) results ->
       In row (DayResult.collections r) ->
       Day row = day /\ dated (Day row) = true.
Proof.
  intro Hrun. pose proof Hrun as Hkeys. unfold optimize_weekly_routes in Hkeys.
  apply days_loop_keys in Hkeys; [ | intros day; apply unique_In].
  simpl in Hkeys. rewrite Hkeys.
  split; [reflexivity | ]. split; [ | split; [ | split]].
  - apply NoDup_filter, unique_NoDup.
  - intros row Hrow Hdated. apply filter_In. split; [ | exact Hdated].
    apply unique_complete. now apply in_map.
  - intro Hin. apply filter_In in Hin. destruct Hin as (_ & Hin).
    discriminate Hin.
  - intros day r row Hin Hrow.
    pose proof (optimize_weekly_routes_In _ _ _ _ _ _ Hrun Hin) as Hplan.
    pose proof (plan_day_fields _ _ _ _ _ Hplan) as Hfields.
    cbv zeta in Hfields. destruct Hfields as (_ & Hcoll & _).
    rewrite Hcoll in Hrow. apply filter_In in Hrow.
    destruct Hrow as (_ & Heq). now apply day_eqb_eq in Heq.
Qed.

Lemma optimize_weekly_routes_days_witness :
  exists results,
    optimize_weekly_routes taxicab sample_undated sample_depots sample_prices
    = Ok results
    /\ map fst results = [Some "Mon"; Some "Tue"]%string
    /\ NoDup (map fst results)
    /\ ~ In None (map fst results).
Proof.
  eexists. split; [vm_compute; reflexivity | ].
  lazymatch goal with
  | |- map fst ?results = _ /\ _ =>
      destruct (@optimize_weekly_routes_days Q _ taxicab sample_undated
                  sample_depots sample_prices results)
        as (Hkeys & Hnodup & _ & Hmissing & _); [vm_compute; reflexivity | ]
  end.
  split; [exact Hkeys | split; [exact Hnodup | exact Hmissing]].
Defined.

(** Every day result of [optimize_weekly_routes] is consistent: its
    collections are the day's rows, at least one; its depot is a row of the
    depot table; its locations are the depot followed by the collection
    points; its route is a closed tour over these locations; and its
    distance is the length of that route in the locations' matrix. *)
Theorem optimize_weekly_routes_result_shape {D : Type} `{Num D}
    (calculate_distance : D -> D -> D -> D -> result D)
    (weekly_data : list (CollectionRequest D)) (depots : frame (DepotRow D))
    (prices : list (PriceRow D)) (results : list (day_value * DayResult.t D))
    (day : day_value) (r : DayResult.t D) :
  optimize_weekly_routes calculate_distance weekly_data depots prices
  = Ok results ->
  In (day, r) results ->
  DayResult.collections r
  = filter (fun row => day_eqb (Day row) day) weekly_data
  /\ DayResult.collections r <> []
  /\ In (DayResult.depot r) (rows depots)
  /\ DayResult.locations r
     = (depot_Latitude (DayResult.depot r), depot_Longitude (DayResult.depot r))
       :: map (fun row => (Latitude row, Longitude row))
            (DayResult.collections r)
  /\ valid_tour (S (length (DayResult.collections r))) (DayResult.route r)
  /\ exists dist_matrix,
       create_distance_matrix calculate_distance (DayResult.locations r)
       = Ok dist_matrix
       /\ calculate_route_distance (DayResult.route r) dist_matrix
          = Ok (DayResult.distance r).
Proof.
  intros Hrun Hin.
  pose proof (optimize_weekly_routes_In _ _ _ _ _ _ Hrun Hin) as Hplan.
  pose proof (plan_day_fields _ _ _ _ _ Hplan) as Hfields.
  cbv zeta in Hfields.
  destruct Hfields as (Hne & Hcoll & Hdepot & Hloc & _).
  destruct (plan_day_tour _ _ _ _ _ Hplan) as (Htour & Hdist).
  rewrite <- Hcoll in Hloc, Hne.
  split; [exact Hcoll | ]. split; [exact Hne | ].
  split; [exact Hdepot | ].
  split; [exact Hloc | ]. split; [ | exact Hdist].
  rewrite Hloc in Htour. simpl in Htour. now rewrite length_map in Htour.
Qed.

Lemma optimize_weekly_routes_result_shape_witness :
  exists r,
    optimize_weekly_routes taxicab sample_week sample_depots sample_prices
    = Ok [(Some "Mon"%string, r)]
    /\ DayResult.collections r = sample_week
    /\ valid_tour 4 (DayResult.route r)
    /\ In (DayResult.depot r) (rows sample_depots).
Proof.
  eexists. split; [vm_compute; reflexivity | ].
  lazymatch goal with
  | |- DayResult.collections ?r = _ /\ _ =>
      destruct (@optimize_weekly_routes_result_shape Q _ taxicab sample_week
                  sample_depots sample_prices [(Some "Mon"%string, r)]
                  (Some "Mon"%string) r)
        as (Hcoll & _ & Hdepot & _ & Htour & _);
        [vm_compute; reflexivity | now left | ]
  end.
  split; [exact Hcoll | split; [exact Htour | exact Hdepot]].
Defined.

(** On a non-empty depot table with the default index,
    [optimize_weekly_routes] returns results whenever [calculate_distance]
    returns on the pairs the planner hands it: each depot and each
    collection point that has a day, in both directions, and any two
    collection rows of the same day. *)
Theorem optimize_weekly_routes_total {D : Type} `{Num D}
    (calculate_distance : D -> D -> D -> D -> result D)
    (weekly_data : list (CollectionRequest D)) (depots : list (DepotRow D))
    (prices : list (PriceRow D)) :
  depots <> [] ->
  (forall depot row, In depot depots -> In row weekly_data ->
     dated (Day row) = true ->
     computes calculate_distance (site_of depot) (point_of row)
     /\ computes calculate_distance (point_of row) (site_of depot)) ->
  (forall i j row row', i <> j ->
     nth_error weekly_data i = Some row ->
     nth_error weekly_data j = Some row' ->
     day_eqb (Day row) (Day row') = true ->
     computes calculate_distance (point_of row) (point_of row')) ->
  exists results,
    optimize_weekly_routes calculate_distance weekly_data
      (default_index depots) prices
    = Ok results.
Proof.
  intros Hdepots Hsite Hpoints. unfold optimize_weekly_routes.
  now apply days_loop_total.
Qed.

Lemma optimize_weekly_routes_total_witness :
  exists results,
    optimize_weekly_routes partial_taxicab sample_undated
      (default_index [north; central]) sample_prices
    = Ok results.
Proof.
  apply (@optimize_weekly_routes_total Q _ partial_taxicab sample_undated
           [north; central] sample_prices).
  - discriminate.
  - intros depot row [<- | [<- | []]]
      [<- | [<- | [<- | [<- | [<- | []]]]]] Hdated;
      try discriminate Hdated; split; eexists; vm_compute; reflexivity.
  - intros i j row row' _ Hi Hj. apply nth_error_In in Hi, Hj.
    revert Hi Hj.
    intros [<- | [<- | [<- | [<- | [<- | []]]]]]
      [<- | [<- | [<- | [<- | [<- | []]]]]] Hsame;
      vm_compute in Hsame; try discriminate Hsame;
      eexists; vm_compute; reflexivity.
Defined.

(** With an empty depot table, [optimize_weekly_routes] raises [IndexError]
    as soon as a row of the weekly table has a day: [depots.iloc[0]] does
    not exist.  When no row has one, every day is skipped and the result
    is empty. *)
Theorem optimize_weekly_routes_no_depot {D : Type} `{Num D}
    (calculate_distance : D -> D -> D -> D -> result D)
    (weekly_data : list (CollectionRequest D)) (prices : list (PriceRow D)) :
  optimize_weekly_routes calculate_distance weekly_data [] prices
  = if existsb (fun row => dated (Day row)) weekly_data
    then Raise IndexError else Ok [].
Proof.
  unfold optimize_weekly_routes.
  rewrite days_loop_no_depot by (intros day; apply unique_In).
  rewrite existsb_dated_unique.
  replace (existsb dated (map (@Day D) weekly_data))
    with (existsb (fun row => dated (Day row)) weekly_data); [reflexivity | ].
  induction weekly_data as [ | row rest IH]; [reflexivity | ].
  simpl. now rewrite IH.
Qed.

Lemma optimize_weekly_routes_no_depot_witness :
  optimize_weekly_routes taxicab sample_undated [] sample_prices
  = Raise IndexError
  /\ optimize_weekly_routes taxicab [undated_row] [] sample_prices = Ok [].
Proof.
  split.
  - apply (@optimize_weekly_routes_no_depot Q _ taxicab sample_undated).
  - apply (@optimize_weekly_routes_no_depot Q _ taxicab [undated_row]).
Defined.

(** ** [select_optimal_depot] on a table with the default index *)

Section DepotFacts.

Context {D : Type} `{Num D}.
Variable calculate_distance : D -> D -> D -> D -> result D.
Variable day_data : list (CollectionRequest D).

(** The inner loop adds the distances up from left to right. *)
Lemma total_dist_from_sum (depot : DepotRow D)
    (collections : list (CollectionRequest D)) :
  forall total,
  total_dist_from calculate_distance total depot collections
  = distances <- depot_distances calculate_distance collections depot ;;
    Ok (fold_left dadd distances total).
Proof.
  induction collections as [ | row rest IH]; intro total; [reflexivity | ].
  cbn [total_dist_from]. unfold depot_distances.
  cbn [mapM site_of point_of fst snd].
  destruct (calculate_distance (depot_Latitude depot) (depot_Longitude depot)
              (Latitude row) (Longitude row)) as [d | e | ];
    cbn [bind]; try reflexivity.
  rewrite IH. unfold depot_distances. cbn [site_of point_of fst snd].
  destruct (mapM _ rest) as [ds | e | ]; reflexivity.
Qed.

(** The sums lie in a set of comparable values. *)
Variable P : D -> Prop.
Hypothesis P_comparable : comparable P.

Lemma first_minimal_keep (seen : list (DepotRow D)) (depot : DepotRow D)
    (best : nat) (s sd : D) :
  first_minimal calculate_distance day_data seen best s ->
  depot_total calculate_distance day_data depot = Ok sd ->
  dltb sd s = false ->
  first_minimal calculate_distance day_data (seen ++ [depot]) best s.
Proof.
  intros ((b & Hb & Hsb) & Hmin) Hsd Hnot.
  assert (Hbest : (best < length seen)%nat)
    by (apply nth_error_Some; congruence).
  split.
  - exists b. split; [ | exact Hsb]. now rewrite nth_error_app1.
  - intros k depot' s' Hk Hs'.
    destruct (Nat.lt_ge_cases k (length seen)) as [Hlt | Hge].
    + rewrite nth_error_app1 in Hk by exact Hlt. eapply Hmin; eassumption.
    + rewrite nth_error_app2 in Hk by exact Hge.
      destruct (k - length seen)%nat as [ | k'] eqn:Hk'; simpl in Hk.
      * injection Hk as <-. assert (s' = sd) by congruence. subst s'.
        split; [exact Hnot | lia].
      * now destruct k'.
Qed.

Lemma first_minimal_replace (seen : list (DepotRow D)) (depot : DepotRow D)
    (best : nat) (s sd : D) :
  (forall depot' s', In depot' (seen ++ [depot]) ->
     depot_total calculate_distance day_data depot' = Ok s' -> P s') ->
  first_minimal calculate_distance day_data seen best s ->
  depot_total calculate_distance day_data depot = Ok sd ->
  dltb sd s = true ->
  first_minimal calculate_distance day_data (seen ++ [depot]) (length seen) sd.
Proof.
  intros HP ((b & Hb & Hsb) & Hmin) Hsd Hlt.
  assert (Ps : P s).
  { apply (HP b); [ | exact Hsb]. apply in_or_app. left.
    eapply nth_error_In; exact Hb. }
  assert (Psd : P sd).
  { apply (HP depot); [ | exact Hsd]. apply in_or_app. right. now left. }
  split.
  - exists depot. split; [ | exact Hsd].
    rewrite nth_error_app2, Nat.sub_diag by lia. reflexivity.
  - intros k depot' s' Hk Hs'.
    destruct (Nat.lt_ge_cases k (length seen)) as [Hklt | Hge].
    + rewrite nth_error_app1 in Hk by exact Hklt.
      destruct (Hmin _ _ _ Hk Hs') as (Hle & _). unfold dle in *.
      split.
      * destruct (dltb s' sd) eqn:Hs'sd; [ | reflexivity].
        rewrite (dltb_trans _ _ _ Hs'sd Hlt) in Hle. discriminate.
      * intros _.
        assert (Ps' : P s').
        { apply (HP depot'); [ | exact Hs']. apply in_or_app. left.
          eapply nth_error_In; exact Hk. }
        destruct (P_comparable Psd Ps Ps' Hlt) as [Hgoal | Hbad];
          [exact Hgoal | congruence].
    + rewrite nth_error_app2 in Hk by exact Hge.
      destruct (k - length seen)%nat as [ | k'] eqn:Hk'; simpl in Hk.
      * injection Hk as <-. assert (s' = sd) by congruence. subst s'.
        split; [apply dltb_irrefl | lia].
      * now destruct k'.
Qed.

Lemma first_minimal_single (depot : DepotRow D) (sd : D) :
  depot_total calculate_distance day_data depot = Ok sd ->
  first_minimal calculate_distance day_data [depot] 0 sd.
Proof.
  intro Hsd. split.
  - now exists depot.
  - intros k depot' s' Hk Hs'. destruct k as [ | k]; simpl in Hk.
    + injection Hk as <-. assert (s' = sd) by congruence. subst s'.
      split; [apply dltb_irrefl | lia].
    + now destruct k.
Qed.

(** The loop over the rows keeps [depot_loop_inv]; the label it holds is
    the position of the best row so far. *)
Lemma depot_loop_spec (rest : list (DepotRow D)) :
  forall (seen : list (DepotRow D)) (best : nat) (min_total : extended D),
  (forall depot, In depot rest ->
     exists s, depot_total calculate_distance day_data depot = Ok s
               /\ dlt_inf s = true) ->
  (forall depot s, In depot (seen ++ rest) ->
     depot_total calculate_distance day_data depot = Ok s -> P s) ->
  depot_loop_inv calculate_distance day_data seen best min_total ->
  exists best' min_total',
    depot_loop calculate_distance day_data
      (combine (map Z.of_nat (seq (length seen) (length rest))) rest)
      (Z.of_nat best) min_total
    = Ok (Z.of_nat best')
    /\ depot_loop_inv calculate_distance day_data (seen ++ rest) best'
         min_total'.
Proof.
  induction rest as [ | depot rest IH]; intros seen best min_total Htot HP Hinv.
  - exists best, min_total. rewrite app_nil_r. now split.
  - destruct (Htot depot) as (sd & Hsd & Hfinite); [now left | ].
    assert (Htot' : forall d, In d rest ->
                      exists s, depot_total calculate_distance day_data d = Ok s
                                /\ dlt_inf s = true)
      by (intros d Hd; apply Htot; now right).
    assert (Happ : seen ++ depot :: rest = (seen ++ [depot]) ++ rest)
      by now rewrite <- app_assoc.
    assert (HP' : forall d s, In d ((seen ++ [depot]) ++ rest) ->
                    depot_total calculate_distance day_data d = Ok s -> P s)
      by (rewrite <- Happ; exact HP).
    assert (HPseen : forall d s, In d (seen ++ [depot]) ->
                       depot_total calculate_distance day_data d = Ok s -> P s).
    { intros d s Hd. apply HP'. apply in_or_app. now left. }
    cbn [length seq map combine depot_loop].
    rewrite total_dist_from_sum.
    fold (depot_total calculate_distance day_data depot). rewrite Hsd.
    cbn [bind]. rewrite Happ.
    replace (S (length seen)) with (length (seen ++ [depot]))
      by (rewrite length_app; simpl; lia).
    destruct min_total as [s | ]; cbn [lt_extended].
    + destruct (dltb sd s) eqn:Hlt.
      * apply (IH (seen ++ [depot]) (length seen) (Finite sd) Htot' HP').
        eapply first_minimal_replace; eassumption.
      * apply (IH (seen ++ [depot]) best (Finite s) Htot' HP').
        eapply first_minimal_keep; eassumption.
    + simpl in Hinv. subst seen. rewrite Hfinite.
      apply (IH ([] ++ [depot]) 0%nat (Finite sd) Htot' HP').
      now apply first_minimal_single.
Qed.

End DepotFacts.

(** On a non-empty depot table with the default index, when the summed
    distance of every depot computes, is below infinity and the sums are
    comparable (none of them is NaN), [select_optimal_depot] returns the
    position and the row of the depot whose summed distance to the day's
    collection points is least, and the first one in table order among
    those that attain it.  The summed distance is the sum, from zero and in
    row order, of what [calculate_distance] returns from the depot to each
    collection point. *)
Theorem select_optimal_depot_first_minimal {D : Type} `{Num D}
    (calculate_distance : D -> D -> D -> D -> result D)
    (day_data : list (CollectionRequest D)) (depots : list (DepotRow D)) :
  depots <> [] ->
  (forall depot, In depot depots ->
     exists s, depot_total calculate_distance day_data depot = Ok s
               /\ dlt_inf s = true) ->
  comparable (depot_sum calculate_distance day_data depots) ->
  exists idx depot s,
    select_optimal_depot calculate_distance day_data (default_index depots)
    = Ok (Z.of_nat idx, depot)
    /\ nth_error depots idx = Some depot
    /\ depot_total calculate_distance day_data depot = Ok s
    /\ forall k depot' s',
         nth_error depots k = Some depot' ->
         depot_total calculate_distance day_data depot' = Ok s' ->
         dle s s' /\ ((k < idx)%nat -> dltb s s' = true).
Proof.
  intros Hne Htot Hcomparable.
  destruct (@depot_loop_spec D _ calculate_distance day_data
              (depot_sum calculate_distance day_data depots) Hcomparable
              depots [] 0%nat Infinity Htot)
    as (best & min_total & Hloop & Hinv).
  { intros depot s Hin Hs. now exists depot. }
  { reflexivity. }
  simpl in Hloop, Hinv.
  destruct min_total as [s | ]; [ | contradiction].
  destruct Hinv as ((depot & Hnth & Hs) & Hmin).
  exists best, depot, s.
  split; [ | split; [exact Hnth | split; [exact Hs | exact Hmin]]].
  unfold select_optimal_depot, default_index, zrange at 1.
  rewrite Hloop. cbn [bind]. fold (default_index depots).
  rewrite rows_default_index. unfold iloc.
  now rewrite (np_index_nat _ _ Hnth).
Qed.

Lemma select_optimal_depot_first_minimal_witness :
  exists idx depot s,
    select_optimal_depot taxicab sample_week (default_index [north; central])
    = Ok (Z.of_nat idx, depot)
    /\ nth_error [north; central] idx = Some depot
    /\ depot_total taxicab sample_week depot = Ok s
    /\ forall k depot' s',
         nth_error [north; central] k = Some depot' ->
         depot_total taxicab sample_week depot' = Ok s' ->
         dle s s' /\ ((k < idx)%nat -> dltb s s' = true).
Proof.
  apply (@select_optimal_depot_first_minimal Q _ taxicab sample_week
           [north; central]).
  - discriminate.
  - intros depot [<- | [<- | []]]; eexists; split; vm_compute; reflexivity.
  - apply Q_comparable.
Defined.

(** ** [main]: the day selection *)

Lemma selected_In {D : Type} (selected_days : list day_value)
    (row : CollectionRequest D) :
  existsb (same_day (Day row)) selected_days = true
  <-> In (Day row) selected_days.
Proof.
  rewrite existsb_exists. split.
  - intros (d & Hd & Heq). apply same_day_eq in Heq. now rewrite Heq.
  - intro Hin. exists (Day row). split; [exact Hin | now apply same_day_eq].
Qed.

Lemma filter_day_selected {D : Type} (selected_days : list day_value)
    (day : day_value) (weekly : list (CollectionRequest D)) :
  In day selected_days ->
  filter (fun row => day_eqb (Day row) day)
    (filter (fun row => existsb (same_day (Day row)) selected_days) weekly)
  = filter (fun row => day_eqb (Day row) day) weekly.
Proof.
  intro Hsel. induction weekly as [ | row weekly IH]; [reflexivity | ].
  simpl. destruct (existsb (same_day (Day row)) selected_days) eqn:Hrow.
  - simpl. now rewrite IH.
  - rewrite IH. destruct (day_eqb (Day row) day) eqn:Heq; [ | reflexivity].
    exfalso. apply not_true_iff_false in Hrow. apply Hrow.
    apply selected_In. apply day_eqb_eq in Heq. destruct Heq as (-> & _).
    exact Hsel.
Qed.

(** The results [main] obtains hold exactly the selected days that have
    rows, the missing value apart: every result day is a selected day, is
    not the missing value and carries all rows of that day; every selected
    day with a row has a result, unless it is the missing value, which
    has none. *)
Theorem main_selected_days {D : Type} `{Num D}
    (calculate_distance : D -> D -> D -> D -> result D)
    (selected_days : list day_value) (optimization_level : string)
    (weekly_routes : list (CollectionRequest D))
    (depot_locations : frame (DepotRow D))
    (material_prices : list (PriceRow D))
    (results : list (day_value * DayResult.t D)) :
  main calculate_distance selected_days optimization_level weekly_routes
    depot_locations material_prices = Some (Ok results) ->
  (forall day r, In (day, r) results ->
     In day selected_days
     /\ dated day = true
     /\ DayResult.collections r
        = filter (fun row => day_eqb (Day row) day) weekly_routes)
  /\ (forall row, In row weekly_routes -> In (Day row) selected_days ->
        dated (Day row) = true -> In (Day row) (map fst results))
  /\ ~ In None (map fst results).
Proof.
  unfold main. intro Hmain.
  set (filtered := filter (fun row => existsb (same_day (Day row))
                                        selected_days) weekly_routes) in *.
  destruct (Nat.eqb (length filtered) 0); [discriminate | ].
  injection Hmain as Hrun.
  assert (Hkeys : map fst results
                  = filter dated (unique (map (@Day D) filtered))).
  { unfold optimize_weekly_routes in Hrun.
    apply days_loop_keys in Hrun; [exact Hrun | intros day; apply unique_In]. }
  split; [ | split].
  - intros day r Hin.
    assert (Hday : In day (map fst results))
      by (apply in_map_iff; exists (day, r); auto).
    rewrite Hkeys in Hday. apply filter_In in Hday.
    destruct Hday as (Hday & Hdated).
    assert (Hsel : In day selected_days).
    { apply unique_In, in_map_iff in Hday.
      destruct Hday as (row & <- & Hrow). apply filter_In in Hrow.
      now apply selected_In. }
    split; [exact Hsel | split; [exact Hdated | ]].
    pose proof (optimize_weekly_routes_In _ _ _ _ _ _ Hrun Hin) as Hplan.
    pose proof (plan_day_fields _ _ _ _ _ Hplan) as Hfields.
    cbv zeta in Hfields. destruct Hfields as (_ & -> & _).
    now apply filter_day_selected.
  - intros row Hrow Hsel Hdated. rewrite Hkeys.
    apply filter_In. split; [ | exact Hdated]. apply unique_complete.
    apply in_map. apply filter_In. split; [exact Hrow | ].
    now apply selected_In.
  - rewrite Hkeys. intro Hin. apply filter_In in Hin.
    destruct Hin as (_ & Hin). discriminate Hin.
Qed.

Lemma main_selected_days_witness :
  exists results,
    main taxicab [None; Some "Tue"; Some "Sun"]%string "Advanced (2-Opt)"
      sample_undated sample_depots sample_prices = Some (Ok results)
    /\ (forall day r, In (day, r) results ->
          In day [None; Some "Tue"; Some "Sun"]%string
          /\ dated day = true
          /\ DayResult.collections r
             = filter (fun row => day_eqb (Day row) day) sample_undated)
    /\ map fst results = [Some "Tue"%string].
Proof.
  eexists. split; [vm_compute; reflexivity | ].
  lazymatch goal with
  | |- (forall day r, In _ ?results -> _) /\ _ =>
      destruct (@main_selected_days Q _ taxicab
                  [None; Some "Tue"; Some "Sun"]%string
                  "Advanced (2-Opt)"%string sample_undated sample_depots
                  sample_prices results) as (Hsel & _);
        [vm_compute; reflexivity | ]
  end.
  split; [exact Hsel | reflexivity].
Defined.

(** [main] stops with "No data available for selected days" exactly when no
    row of the weekly table falls on a selected day. *)
Theorem main_nothing_selected {D : Type} `{Num D}
    (calculate_distance : D -> D -> D -> D -> result D)
    (selected_days : list day_value) (optimization_level : string)
    (weekly_routes : list (CollectionRequest D))
    (depot_locations : frame (DepotRow D))
    (material_prices : list (PriceRow D)) :
  main calculate_distance selected_days optimization_level weekly_routes
    depot_locations material_prices = None
  <-> forall row, In row weekly_routes -> ~ In (Day row) selected_days.
Proof.
  unfold main.
  set (filtered := filter (fun row => existsb (same_day (Day row))
                                        selected_days) weekly_routes).
  split.
  - intros Hnone row Hrow Hsel.
    destruct filtered as [ | row0 rest] eqn:Hf; [ | discriminate].
    assert (Hin : In row filtered)
      by (apply filter_In; split; [exact Hrow | now apply selected_In]).
    rewrite Hf in Hin. contradiction.
  - intro Hall. destruct filtered as [ | row0 rest] eqn:Hf; [reflexivity | ].
    exfalso.
    assert (Hin : In row0 filtered) by (rewrite Hf; now left).
    apply filter_In in Hin. destruct Hin as (Hrow & Hsel).
    apply (Hall row0 Hrow). now apply selected_In.
Qed.

Lemma main_nothing_selected_witness :
  main taxicab [Some "Sun"%string] "Basic (Nearest Neighbor)" sample_two_days
    sample_depots sample_prices = None.
Proof.
  apply (proj2 (@main_nothing_selected Q _ taxicab [Some "Sun"%string]
                  "Basic (Nearest Neighbor)"%string sample_two_days
                  sample_depots sample_prices)).
  intros row [<- | [<- | [<- | [<- | []]]]] [Heq | []]; discriminate Heq.
Defined.

(** ** What the map and the stop list read off a closed tour *)

(** A closed tour is the depot, the other indices in some order, the depot. *)
Lemma valid_tour_shape (n : nat) (t : list Z) :
  (1 <= n)%nat -> valid_tour n t ->
  exists mid, t = 0 :: mid ++ [0]
              /\ Permutation mid (map Z.of_nat (seq 1 (n - 1))).
Proof.
  intros Hn (Hhd & Hlast & Hlen & Hcount).
  destruct t as [ | a rest]; [discriminate | ].
  simpl in Hhd. injection Hhd as ->.
  destruct (@exists_last _ rest) as (mid & b & ->).
  { intros ->. simpl in Hlen. lia. }
  simpl in Hlen. rewrite length_app in Hlen. simpl in Hlen.
  change (0 :: mid ++ [b]) with ((0 :: mid) ++ [b]) in Hlast.
  rewrite nth_error_app2 in Hlast by (simpl; lia).
  replace (n - length (0%Z :: mid))%nat with 0%nat in Hlast by (simpl; lia).
  simpl in Hlast. injection Hlast as ->.
  exists mid. split; [reflexivity | ].
  symmetry. apply NoDup_Permutation_bis.
  - apply Injective_map_NoDup; [ | apply seq_NoDup].
    intros x y. apply Nat2Z.inj.
  - rewrite length_map, length_seq. lia.
  - intros k Hk. apply in_map_iff in Hk. destruct Hk as (i & <- & Hi).
    apply in_seq in Hi.
    assert (Hone : count_occ Z.eq_dec (0 :: mid ++ [0]) (Z.of_nat i) = 1%nat)
      by (apply Hcount; lia).
    assert (Hin : In (Z.of_nat i) (0 :: mid ++ [0]))
      by (apply (count_occ_In Z.eq_dec); lia).
    destruct Hin as [H0 | Hin]; [lia | ].
    apply in_app_or in Hin. destruct Hin as [Hin | [H0 | []]]; [exact Hin | lia].
Qed.

Lemma route_order_of_shape (mid : list Z) :
  route_order (0 :: mid ++ [0]) = mid.
Proof.
  unfold route_order, slice. cbn [length].
  rewrite length_app. cbn [length].
  replace (S (length mid + 1) - 1)%nat with (S (length mid)) by lia.
  cbn [firstn skipn].
  rewrite firstn_app, Nat.sub_diag, firstn_all. cbn [firstn].
  now rewrite app_nil_r.
Qed.

Lemma py_in_In (x : Z) (l : list Z) : py_in x l = true <-> In x l.
Proof.
  unfold py_in. rewrite existsb_exists. split.
  - intros (y & Hy & Heq). apply Z.eqb_eq in Heq. now subst.
  - intro Hin. exists x. split; [exact Hin | apply Z.eqb_refl].
Qed.

Lemma py_index_of_In (x : Z) (l : list Z) :
  In x l ->
  exists k, py_index_of x l = Ok k /\ nth_error l k = Some x
            /\ forall k', (k' < k)%nat -> nth_error l k' <> Some x.
Proof.
  induction l as [ | y l IH]; simpl; intro Hin; [contradiction | ].
  destruct (Z.eqb_spec y x) as [-> | Hneq].
  - exists 0%nat. repeat split. intros k' Hk'. lia.
  - destruct Hin as [Heq | Hin]; [contradiction | ].
    destruct (IH Hin) as (k & -> & Hnth & Hfirst). exists (S k).
    repeat split; [exact Hnth | ].
    intros [ | k'] Hk'; simpl; [congruence | apply Hfirst; lia].
Qed.

Lemma py_index_of_absent (x : Z) (l : list Z) :
  ~ In x l -> py_index_of x l = Raise ValueError.
Proof.
  induction l as [ | y l IH]; simpl; intro Hnot; [reflexivity | ].
  destruct (Z.eqb_spec y x) as [-> | Hneq]; [exfalso; apply Hnot; now left | ].
  rewrite IH; [reflexivity | ]. intro Hin. apply Hnot. now right.
Qed.

Section ListingFacts.

Context {D : Type}.

Lemma collection_lines_spec (collections : list (CollectionRequest D))
    (stops : list Z) :
  Forall (fun s => 1 <= s <= Z.of_nat (length collections)) stops ->
  forall start,
  exists lines,
    collection_lines collections (combine (seq start (length stops)) stops)
    = Ok lines
    /\ map fst lines = seq (S start) (length stops)
    /\ map (fun line => Some (snd line)) lines
       = map (fun s => nth_error collections (Z.to_nat (s - 1))) stops.
Proof.
  induction stops as [ | s stops IH]; intros Hall start.
  - exists []. repeat split.
  - inversion Hall as [ | ? ? Hs Hrest]; subst.
    cbn [length seq combine collection_lines].
    replace (0 <? s) with true by (symmetry; apply Z.ltb_lt; lia).
    unfold iloc at 1.
    destruct (nth_error collections (Z.to_nat (s - 1))) as [row | ] eqn:Hrow;
      [ | apply nth_error_None in Hrow; lia].
    pose proof (np_index_nat _ _ Hrow) as Hiloc.
    rewrite Z2Nat.id in Hiloc by lia. rewrite Hiloc.
    cbn [bind]. destruct (IH Hrest (S start)) as (lines & -> & Hnum & Hrows).
    cbn [bind]. eexists. split; [reflexivity | ]. cbn [map fst snd].
    rewrite Hnum, Hrows, Hrow. split; [ | reflexivity].
    f_equal. lia.
Qed.

End ListingFacts.

(** For a day result whose route is a closed tour over its collections, the
    stop list of [main] is written without an index error; its lines are
    numbered 1, 2, ... and follow the tour: the line at each position
    shows the collection that the stop at that position of the tour (the
    depot at both ends left out) stands for; so every collection is shown
    exactly once. *)
Theorem collection_points_lists_all {D : Type} (r : DayResult.t D) :
  valid_tour (S (length (DayResult.collections r))) (DayResult.route r) ->
  exists lines,
    collection_points r = Ok lines
    /\ map fst lines = seq 1 (length (DayResult.collections r))
    /\ map (fun line => Some (snd line)) lines
       = map (fun stop_idx =>
                nth_error (DayResult.collections r) (Z.to_nat (stop_idx - 1)))
           (route_order (DayResult.route r))
    /\ Permutation (map snd lines) (DayResult.collections r).
Proof.
  intro Htour. set (collections := DayResult.collections r) in *.
  destruct (valid_tour_shape (n := S (length collections)) (t := DayResult.route r))
    as (mid & Hroute & Hperm); [lia | exact Htour | ].
  replace (S (length collections) - 1)%nat with (length collections) in Hperm
    by lia.
  assert (Hlen : length mid = length collections).
  { rewrite (Permutation_length Hperm), length_map, length_seq. reflexivity. }
  assert (Hall : Forall (fun s => 1 <= s <= Z.of_nat (length collections)) mid).
  { apply Forall_forall. intros s Hs.
    apply (Permutation_in _ Hperm), in_map_iff in Hs.
    destruct Hs as (i & <- & Hi). apply in_seq in Hi. lia. }
  destruct (collection_lines_spec collections Hall 0)
    as (lines & Hlines & Hnum & Hrows).
  exists lines. unfold collection_points, enumerate.
  fold collections. rewrite Hroute, route_order_of_shape.
  split; [exact Hlines | ]. split; [now rewrite Hnum, Hlen | ].
  split; [exact Hrows | ].
  assert (Hsome : Permutation (map Some (map snd lines)) (map Some collections)).
  { rewrite map_map, Hrows.
    rewrite (Permutation_map _ Hperm), map_map.
    replace (map (fun x => nth_error collections (Z.to_nat (Z.of_nat x - 1)))
               (seq 1 (length collections)))
      with (map Some collections); [reflexivity | ].
    clear. induction collections as [ | row rest IH] using rev_ind;
      [reflexivity | ].
    rewrite length_app. cbn [length].
    rewrite Nat.add_1_r, seq_S, !map_app. cbn [map].
    f_equal.
    - rewrite IH. apply map_ext_in. intros i Hi. apply in_seq in Hi.
      rewrite nth_error_app1 by lia. reflexivity.
    - replace (Z.to_nat (Z.of_nat (1 + length rest) - 1)) with (length rest)
        by lia.
      rewrite nth_error_app2, Nat.sub_diag by lia. reflexivity. }
  apply Permutation_map_inv in Hsome. destruct Hsome as (l3 & Heq & Hp3).
  assert (map snd lines = l3).
  { clear - Heq. revert l3 Heq.
    induction (map snd lines) as [ | x l IH]; intros [ | y l3] Heq;
      simpl in Heq; try discriminate; [reflexivity | ].
    injection Heq as -> Heq. f_equal. now apply IH. }
  subst l3. now symmetry.
Qed.

Lemma collection_points_lists_all_witness :
  exists r lines,
    optimize_weekly_routes taxicab sample_week sample_depots sample_prices
    = Ok [(Some "Mon"%string, r)]
    /\ collection_points r = Ok lines
    /\ map fst lines = seq 1 (length (DayResult.collections r))
    /\ map (fun line => Some (snd line)) lines
       = map (fun stop_idx =>
                nth_error (DayResult.collections r) (Z.to_nat (stop_idx - 1)))
           (route_order (DayResult.route r))
    /\ Permutation (map snd lines) (DayResult.collections r)
    /\ map (fun line => Location (snd line)) lines = ["B"; "A"; "C"]%string.
Proof.
  eexists.
  lazymatch goal with
  | |- exists lines, optimize_weekly_routes _ _ _ _ = Ok [(_, ?r)] /\ _ =>
      assert (Hrun : optimize_weekly_routes taxicab sample_week sample_depots
                       sample_prices = Ok [(Some "Mon"%string, r)])
        by (vm_compute; reflexivity)
  end.
  lazymatch type of Hrun with
  | _ = Ok [(_, ?r)] =>
      destruct (@collection_points_lists_all Q r)
        as (lines & Hl & Hn & Ho & Hp)
  end.
  - split; [reflexivity | split; [reflexivity | split; [reflexivity | ]]].
    intros k Hk. simpl in Hk.
    assert (Hcases : k = 1 \/ k = 2 \/ k = 3) by lia.
    destruct Hcases as [-> | [-> | ->]]; reflexivity.
  - exists lines. split; [exact Hrun | ]. split; [exact Hl | ].
    split; [exact Hn | ]. split; [exact Ho | ]. split; [exact Hp | ].
    vm_compute in Hl. injection Hl as <-. reflexivity.
Defined.

(** In the popups of [create_route_map], over a closed tour of [k]
    collections: collection [i < k] gets a stop number between 1 and [k],
    the position of [i + 1] in the route, and no other collection gets the
    same number; beyond [k] the popup shows 'N/A'. *)
Theorem stop_number_of_collection (k : nat) (route : list Z) (i : nat) :
  valid_tour (S k) route ->
  ((i < k)%nat ->
   exists s, stop_number route i = Ok (Some s)
     /\ (1 <= s <= k)%nat
     /\ nth_error route s = Some (Z.of_nat i + 1)
     /\ forall i', stop_number route i' = Ok (Some s) -> i' = i)
  /\ ((k <= i)%nat -> stop_number route i = Ok None).
Proof.
  intro Htour.
  destruct (valid_tour_shape (n := S k) (t := route)) as (mid & Hroute & Hperm);
    [lia | exact Htour | ].
  replace (S k - 1)%nat with k in Hperm by lia.
  assert (Hmid : forall x, In x mid <-> 1 <= x <= Z.of_nat k).
  { intro x. split.
    - intro Hx. apply (Permutation_in _ Hperm), in_map_iff in Hx.
      destruct Hx as (j & <- & Hj). apply in_seq in Hj. lia.
    - intro Hx. apply (Permutation_in _ (Permutation_sym Hperm)).
      apply in_map_iff. exists (Z.to_nat x). split; [lia | apply in_seq; lia]. }
  assert (Hin : forall x, x <> 0 -> (In x route <-> In x mid)).
  { intros x Hx. rewrite Hroute. split.
    - intros [H0 | Hin]; [congruence | ].
      apply in_app_or in Hin. destruct Hin as [Hin | [H0 | []]];
        [exact Hin | congruence].
    - intro Hm. right. apply in_or_app. now left. }
  destruct Htour as (Hhd & Hlast & Hlen & _).
  assert (Hstop : forall j s, stop_number route j = Ok (Some s) ->
                    nth_error route s = Some (Z.of_nat j + 1)).
  { intros j s. unfold stop_number.
    destruct (py_in (Z.of_nat j + 1) route) eqn:Hpy; [ | discriminate].
    apply py_in_In in Hpy.
    destruct (py_index_of_In _ _ Hpy) as (p & -> & Hnth & _).
    cbn [bind]. intro Heq. now injection Heq as <-. }
  split.
  - intro Hi.
    assert (Hx : In (Z.of_nat i + 1) route)
      by (apply Hin; [lia | apply Hmid; lia]).
    destruct (py_index_of_In _ _ Hx) as (s & Hidx & Hnth & _).
    exists s. unfold stop_number at 1.
    rewrite (proj2 (py_in_In _ _) Hx), Hidx. cbn [bind].
    split; [reflexivity | ]. split; [ | split; [exact Hnth | ]].
    + assert (Hs : (s < length route)%nat)
        by (apply nth_error_Some; congruence).
      destruct s as [ | s].
      * rewrite Hroute in Hnth. simpl in Hnth. injection Hnth as Hz. lia.
      * destruct (Nat.eq_dec (S s) (S k)) as [Heq | Hneq]; [ | lia].
        rewrite Heq, Hlast in Hnth. injection Hnth as Hz. lia.
    + intros i' Hi'. apply Hstop in Hi'. rewrite Hnth in Hi'.
      injection Hi' as Heq. lia.
  - intro Hi. unfold stop_number.
    destruct (py_in (Z.of_nat i + 1) route) eqn:Hpy; [ | reflexivity].
    apply py_in_In in Hpy. apply Hin in Hpy; [ | lia].
    apply Hmid in Hpy. lia.
Qed.

Lemma stop_number_of_collection_witness :
  (exists s, stop_number [0; 2; 1; 3; 0] 0 = Ok (Some s)
     /\ (1 <= s <= 3)%nat
     /\ nth_error [0; 2; 1; 3; 0] s = Some (Z.of_nat 0 + 1)
     /\ forall i', stop_number [0; 2; 1; 3; 0] i' = Ok (Some s) -> i' = 0%nat)
  /\ stop_number [0; 2; 1; 3; 0] 3 = Ok None.
Proof.
  destruct (@stop_number_of_collection 3 [0; 2; 1; 3; 0] 0) as (Hin & _).
  - split; [reflexivity | split; [reflexivity | split; [reflexivity | ]]].
    intros x Hx. simpl in Hx.
    assert (Hcases : x = 1 \/ x = 2 \/ x = 3) by lia.
    destruct Hcases as [-> | [-> | ->]]; reflexivity.
  - split; [apply Hin; lia | reflexivity].
Defined.

Lemma mapM_app {A B : Type} (f : A -> result B) (l1 l2 : list A)
    (b1 b2 : list B) :
  mapM f l1 = Ok b1 -> mapM f l2 = Ok b2 -> mapM f (l1 ++ l2) = Ok (b1 ++ b2).
Proof.
  revert b1. induction l1 as [ | a l1 IH]; simpl; intros b1 H1 H2.
  - injection H1 as <-. exact H2.
  - inv_bind H1. inv_bind H1. injection H1 as <-.
    rewrite Hv, (IH _ Hv0 H2). reflexivity.
Qed.

Lemma reindexed_Permutation {A : Type} (l picked : list A) (mid : list Z) :
  Permutation mid (map Z.of_nat (seq 1 (length l))) ->
  map Some picked = map (fun s => nth_error l (Z.to_nat (s - 1))) mid ->
  Permutation picked l.
Proof.
  intros Hperm Hpicked.
  assert (Hsome : Permutation (map Some picked) (map Some l)).
  { rewrite Hpicked, (Permutation_map _ Hperm), map_map.
    replace (map (fun x => nth_error l (Z.to_nat (Z.of_nat x - 1)))
               (seq 1 (length l)))
      with (map Some l); [reflexivity | ].
    clear. induction l as [ | a rest IH] using rev_ind; [reflexivity | ].
    rewrite length_app. cbn [length].
    rewrite Nat.add_1_r, seq_S, !map_app. cbn [map].
    f_equal.
    - rewrite IH. apply map_ext_in. intros i Hi. apply in_seq in Hi.
      rewrite nth_error_app1 by lia. reflexivity.
    - replace (Z.to_nat (Z.of_nat (1 + length rest) - 1)) with (length rest)
        by lia.
      rewrite nth_error_app2, Nat.sub_diag by lia. reflexivity. }
  apply Permutation_map_inv in Hsome. destruct Hsome as (l3 & Heq & Hp3).
  assert (picked = l3).
  { clear - Heq. revert l3 Heq.
    induction picked as [ | x p IH]; intros [ | y l3] Heq;
      simpl in Heq; try discriminate; [reflexivity | ].
    injection Heq as -> Heq. f_equal. now apply IH. }
  subst l3. now symmetry.
Qed.

(** The polyline [create_route_map] draws over a closed tour starts and
    ends at the depot's coordinates and passes through the coordinates of
    every collection point exactly once; no lookup fails. *)
Theorem route_coords_closed {D : Type} (depot : D * D) (points : list (D * D))
    (route : list Z) :
  valid_tour (S (length points)) route ->
  exists passed,
    route_coords (depot :: points) route = Ok (depot :: passed ++ [depot])
    /\ Permutation passed points.
Proof.
  intro Htour.
  destruct (valid_tour_shape (n := S (length points)) (t := route))
    as (mid & -> & Hperm); [lia | exact Htour | ].
  replace (S (length points) - 1)%nat with (length points) in Hperm by lia.
  assert (Hmid : exists passed,
            mapM (np_index (depot :: points)) mid = Ok passed
            /\ map Some passed
               = map (fun s => nth_error points (Z.to_nat (s - 1))) mid).
  { assert (Hall : Forall (fun s => 1 <= s <= Z.of_nat (length points)) mid).
    { apply Forall_forall. intros s Hs.
      apply (Permutation_in _ Hperm), in_map_iff in Hs.
      destruct Hs as (i & <- & Hi). apply in_seq in Hi. lia. }
    clear Hperm Htour. induction mid as [ | s mid IH].
    - exists []. split; reflexivity.
    - inversion Hall as [ | ? ? Hs Hrest]; subst.
      destruct (IH Hrest) as (passed & Hm & Hsome).
      destruct (nth_error points (Z.to_nat (s - 1))) as [pt | ] eqn:Hpt;
        [ | apply nth_error_None in Hpt; lia].
      exists (pt :: passed). cbn [mapM map].
      replace s with (Z.of_nat (S (Z.to_nat (s - 1)))) at 1 by lia.
      rewrite (np_index_nat (depot :: points) (S (Z.to_nat (s - 1))) Hpt).
      cbn [bind]. rewrite Hm. cbn [bind]. rewrite Hsome, Hpt.
      split; reflexivity. }
  destruct Hmid as (passed & Hm & Hsome).
  exists passed. split; [ | eapply reindexed_Permutation; eassumption].
  unfold route_coords. cbn [mapM].
  change (np_index (depot :: points) 0) with (Ok depot). cbn [bind].
  rewrite (mapM_app _ mid [0] Hm (b2 := [depot])); reflexivity.
Qed.

Lemma route_coords_closed_witness :
  exists passed,
    route_coords [(zq 0, zq 0); (zq 1, zq 0); (zq (-1), zq 1); (zq 2, zq (-3))]
      [0; 2; 1; 3; 0]
    = Ok ((zq 0, zq 0) :: passed ++ [(zq 0, zq 0)])
    /\ Permutation passed [(zq 1, zq 0); (zq (-1), zq 1); (zq 2, zq (-3))].
Proof.
  apply (@route_coords_closed Q (zq 0, zq 0)
           [(zq 1, zq 0); (zq (-1), zq 1); (zq 2, zq (-3))] [0; 2; 1; 3; 0]).
  split; [reflexivity | split; [reflexivity | split; [reflexivity | ]]].
  intros x Hx. simpl in Hx.
  assert (Hcases : x = 1 \/ x = 2 \/ x = 3) by lia.
  destruct Hcases as [-> | [-> | ->]]; reflexivity.
Defined.

(** ** The revenue join on a price table without repeated materials *)

Section RevenueFacts.

Context {D : Type} `{Num D}.

Lemma filter_no_match (prices : list (PriceRow D)) (material : string) :
  ~ In material (map (@price_Material D) prices) ->
  filter (fun p => String.eqb material (price_Material p)) prices = [].
Proof.
  induction prices as [ | p prices IH]; simpl; intro Hnot; [reflexivity | ].
  destruct (String.eqb_spec material (price_Material p)) as [Heq | _].
  - exfalso. apply Hnot. left. now symmetry.
  - apply IH. intro Hin. apply Hnot. now right.
Qed.

Lemma filter_find_unique (prices : list (PriceRow D)) (material : string) :
  NoDup (map (@price_Material D) prices) ->
  filter (fun p => String.eqb material (price_Material p)) prices
  = match find (fun p => String.eqb material (price_Material p)) prices with
    | Some p => [p]
    | None => []
    end.
Proof.
  induction prices as [ | p prices IH]; simpl; intro Hnd; [reflexivity | ].
  apply NoDup_cons_iff in Hnd. destruct Hnd as (Hnot & Hnd).
  destruct (String.eqb_spec material (price_Material p)) as [Heq | _].
  - rewrite filter_no_match; [reflexivity | now rewrite Heq].
  - now apply IH.
Qed.

Lemma revenue_terms_cons (row : CollectionRequest D)
    (rest : list (CollectionRequest D)) (prices : list (PriceRow D)) :
  revenue_terms (row :: rest) prices
  = revenue_terms [row] prices ++ revenue_terms rest prices.
Proof.
  unfold revenue_terms, merge_prices. cbn [flat_map].
  rewrite app_nil_r. apply map_app.
Qed.

End RevenueFacts.

(** When no material is listed twice in the price table, the revenue join
    keeps one product per collection row: the row's weight times the price
    found for its material, missing when there is none. *)
Theorem revenue_terms_one_per_row {D : Type} `{Num D}
    (day_data : list (CollectionRequest D)) (prices : list (PriceRow D)) :
  NoDup (map (@price_Material D) prices) ->
  revenue_terms day_data prices
  = map (fun row =>
           option_map
             (fun p => dmul (Estimated_Weight_kg row) (Price_per_kg p))
             (find (fun p => String.eqb (Material row) (price_Material p))
                prices))
      day_data
  /\ length (revenue_terms day_data prices) = length day_data.
Proof.
  intro Hnd.
  assert (Heq : revenue_terms day_data prices
                = map (fun row =>
                         option_map
                           (fun p => dmul (Estimated_Weight_kg row)
                                       (Price_per_kg p))
                           (find (fun p => String.eqb (Material row)
                                             (price_Material p)) prices))
                    day_data).
  { induction day_data as [ | row rest IH]; [reflexivity | ].
    rewrite revenue_terms_cons, IH. unfold revenue_terms, merge_prices. cbn [flat_map map].
    rewrite app_nil_r, (filter_find_unique _ (Material row) Hnd).
    destruct (find _ prices); reflexivity. }
  split; [exact Heq | ]. now rewrite Heq, length_map.
Qed.

Lemma revenue_terms_one_per_row_witness :
  revenue_terms sample_week sample_prices
  = map (fun row =>
           option_map
             (fun p => dmul (Estimated_Weight_kg row) (Price_per_kg p))
             (find (fun p => String.eqb (Material row) (price_Material p))
                sample_prices))
      sample_week
  /\ length (revenue_terms sample_week sample_prices) = length sample_week.
Proof.
  apply (@revenue_terms_one_per_row Q _ sample_week sample_prices).
  repeat constructor; simpl; intuition discriminate.
Defined.

(** A material listed twice in the price table is counted twice: the join
    yields one product per matching price row. *)
Theorem revenue_terms_repeated_price {D : Type} `{Num D}
    (row : CollectionRequest D) (before between after : list (PriceRow D))
    (p1 p2 : PriceRow D) :
  price_Material p1 = Material row -> price_Material p2 = Material row ->
  unpriced before (Material row) -> unpriced between (Material row) ->
  unpriced after (Material row) ->
  revenue_terms [row] (before ++ p1 :: between ++ p2 :: after)
  = [ Some (dmul (Estimated_Weight_kg row) (Price_per_kg p1));
      Some (dmul (Estimated_Weight_kg row) (Price_per_kg p2)) ].
Proof.
  intros H1 H2 Hb Hm Ha.
  assert (Hnone : forall l : list (PriceRow D), unpriced l (Material row) ->
            filter (fun p => String.eqb (Material row) (price_Material p)) l
            = []).
  { intros l Hl. apply filter_no_match. intro Hin.
    apply in_map_iff in Hin. destruct Hin as (p & Hp & Hin).
    now apply (Hl p Hin). }
  unfold revenue_terms, merge_prices. cbn [flat_map].
  rewrite app_nil_r, filter_app. cbn [filter].
  rewrite filter_app. cbn [filter].
  rewrite H1, H2, String.eqb_refl, !Hnone by assumption.
  reflexivity.
Qed.

Lemma revenue_terms_repeated_price_witness :
  revenue_terms [foil_row]
    (sample_prices ++ foil_at_zero :: [] ++ foil_at_zero :: [])
  = [ Some (dmul (Estimated_Weight_kg foil_row) (Price_per_kg foil_at_zero));
      Some (dmul (Estimated_Weight_kg foil_row) (Price_per_kg foil_at_zero)) ].
Proof.
  apply (@revenue_terms_repeated_price Q _ foil_row sample_prices [] []
           foil_at_zero foil_at_zero).
  - reflexivity.
  - reflexivity.
  - intros p [<- | [<- | []]]; discriminate.
  - intros p [].
  - intros p [].
Defined.

(** ** Budgets compose *)

Section BudgetFacts.

Context {D : Type} `{Num D}.

Lemma two_opt_loop_at_optimum (m : matrix D) (route : list Z) (bd : D)
    (c : nat) :
  scan_i route m bd (range 1 (length route - 2)) = Ok None ->
  two_opt_loop c route route bd m = Ok route.
Proof.
  intro Hscan. destruct c as [ | c]; simpl; [reflexivity | ].
  now rewrite Hscan.
Qed.

Lemma two_opt_loop_compose (m : matrix D) (c : nat) (k : nat) :
  forall (route : list Z) (bd : D) (r1 : list Z),
  calculate_route_distance route m = Ok bd ->
  two_opt_loop k route route bd m = Ok r1 ->
  (bd1 <- calculate_route_distance r1 m ;; two_opt_loop c r1 r1 bd1 m)
  = two_opt_loop (k + c) route route bd m.
Proof.
  induction k as [ | k IH]; intros route bd r1 Hbd Hloop.
  - simpl in Hloop. injection Hloop as <-. now rewrite Hbd.
  - simpl in Hloop. inv_bind Hloop. simpl. rewrite Hv. cbn [bind].
    destruct v as [[nr nd] | ].
    + pose proof (scan_step _ _ _ Hv) as (_ & Hnd & _).
      now apply IH.
    + injection Hloop as <-. rewrite Hbd. cbn [bind].
      now apply two_opt_loop_at_optimum.
Qed.

End BudgetFacts.

(** Running [two_opt_improvement] with budget [b] and then with budget [c]
    on its result is running it once with budget [b + c]; so a larger
    budget never returns a longer tour. *)
Theorem two_opt_improvement_budgets_add {D : Type} `{Num D}
    (route : list Z) (m : matrix D) (b c : Z) (r1 : list Z) :
  0 <= b -> 0 <= c ->
  two_opt_improvement route m b = Ok r1 ->
  two_opt_improvement r1 m c = two_opt_improvement route m (b + c)
  /\ forall r2, two_opt_improvement route m (b + c) = Ok r2 ->
       exists d1 d2, calculate_route_distance r1 m = Ok d1
                     /\ calculate_route_distance r2 m = Ok d2
                     /\ dle d2 d1.
Proof.
  intros Hb Hc Hrun.
  assert (Hadd : two_opt_improvement r1 m c
                 = two_opt_improvement route m (b + c)).
  { unfold two_opt_improvement in *. inv_bind Hrun. rewrite Hv. cbn [bind].
    replace (Z.to_nat (b + c)) with (Z.to_nat b + Z.to_nat c)%nat by lia.
    now apply two_opt_loop_compose. }
  split; [exact Hadd | ].
  intros r2 Hr2. rewrite <- Hadd in Hr2.
  apply two_opt_improvement_spec in Hr2.
  destruct Hr2 as (_ & d1 & d2 & Hd1 & Hd2 & Hle). now exists d1, d2.
Qed.

Lemma two_opt_improvement_budgets_add_witness :
  two_opt_improvement [0; 1; 3; 4; 2; 0] sample_matrix 4
  = two_opt_improvement [0; 1; 3; 2; 4; 0] sample_matrix (1 + 4)
  /\ forall r2,
       two_opt_improvement [0; 1; 3; 2; 4; 0] sample_matrix (1 + 4) = Ok r2 ->
       exists d1 d2,
         calculate_route_distance [0; 1; 3; 4; 2; 0] sample_matrix = Ok d1
         /\ calculate_route_distance r2 sample_matrix = Ok d2
         /\ dle d2 d1.
Proof.
  apply (@two_opt_improvement_budgets_add Q _ [0; 1; 3; 2; 4; 0]
           sample_matrix 1 4 [0; 1; 3; 4; 2; 0]).
  - lia.
  - lia.
  - vm_compute. reflexivity.
Defined.

(** The distance [optimize_weekly_routes] reports for a day is the length
    of a tour that is not longer than the nearest-neighbour tour over the
    day's distance matrix. *)
Theorem day_distance_not_above_nearest_neighbor {D : Type} `{Num D}
    (calculate_distance : D -> D -> D -> D -> result D)
    (weekly_data : list (CollectionRequest D)) (depots : frame (DepotRow D))
    (prices : list (PriceRow D)) (results : list (day_value * DayResult.t D))
    (day : day_value) (r : DayResult.t D) :
  optimize_weekly_routes calculate_distance weekly_data depots prices
  = Ok results ->
  In (day, r) results ->
  exists dist_matrix initial_route initial_distance,
    create_distance_matrix calculate_distance (DayResult.locations r)
    = Ok dist_matrix
    /\ nearest_neighbor_tsp dist_matrix 0 = Ok initial_route
    /\ calculate_route_distance initial_route dist_matrix
       = Ok initial_distance
    /\ dle (DayResult.distance r) initial_distance.
Proof.
  intros Hrun Hin.
  pose proof (optimize_weekly_routes_In _ _ _ _ _ _ Hrun Hin) as Hplan.
  apply plan_day_inv in Hplan. cbv zeta in Hplan.
  destruct Hplan as (m & initial & Hm & Hnn & Hopt & Hdist & _).
  apply two_opt_improvement_spec in Hopt.
  destruct Hopt as (_ & d & d' & Hd & Hd' & Hle).
  exists m, initial, d. repeat split; try assumption.
  assert (d' = DayResult.distance r) by congruence. now subst d'.
Qed.

Lemma day_distance_not_above_nearest_neighbor_witness :
  exists r dist_matrix initial_route initial_distance,
    optimize_weekly_routes taxicab sample_week sample_depots sample_prices
    = Ok [(Some "Mon"%string, r)]
    /\ create_distance_matrix taxicab (DayResult.locations r) = Ok dist_matrix
    /\ nearest_neighbor_tsp dist_matrix 0 = Ok initial_route
    /\ calculate_route_distance initial_route dist_matrix = Ok initial_distance
    /\ dle (DayResult.distance r) initial_distance.
Proof.
  eexists.
  lazymatch goal with
  | |- exists m i d, optimize_weekly_routes _ _ _ _ = Ok [(_, ?r)] /\ _ =>
      assert (Hrun : optimize_weekly_routes taxicab sample_week sample_depots
                       sample_prices = Ok [(Some "Mon"%string, r)])
        by (vm_compute; reflexivity)
  end.
  lazymatch type of Hrun with
  | _ = Ok [(_, ?r)] =>
      destruct (@day_distance_not_above_nearest_neighbor Q _ taxicab
                  sample_week sample_depots sample_prices
                  [(Some "Mon"%string, r)] (Some "Mon"%string) r Hrun
                  (or_introl eq_refl))
        as (m & initial & d & Hm & Hnn & Hd & Hle)
  end.
  exists m, initial, d. auto.
Defined.
